(** * AwsS3Storage: the S3 driver of the Factory drive module

    A shallow embedding of [src/aws-s3.storage.ts].  The driver is a thin
    adapter: every method issues one call (or, for [move] and [flatList],
    a short sequence of calls) on the S3 client it holds, reshapes the
    result into a response envelope, and translates the errors the client
    raises with [handleError].

    The S3 client, the presigner and Node's [Buffer] are collaborators of
    the driver, not part of it: the client is a record of functions over
    an abstract backend state, so that every statement below holds for
    every backend.  [MemS3] at the end of the definitions is one concrete
    backend, used to run the driver on explicit inputs. *)

From Stdlib Require Import String Ascii List ZArith Bool Lia.
From Stdlib.Strings Require Import Byte.
From Stdlib Require Import DecimalString Decimal DecimalNat.
Import ListNotations.
Open Scope string_scope.

Set Implicit Arguments.

(* ------------------------------------------------------------------ *)
(** ** Values exchanged with the SDK *)

(** A JavaScript [Error] as the driver reads it: [err.name] in
    [handleError], [e.statusCode] in [exists]. *)
Record Error := mkError {
  name : string;
  message : string;
  statusCode : option Z
}.

(** [Buffer] and [Date]. *)
Definition Buffer := list byte.
Definition Date := Z.

(** A promise that has settled, as [await] observes it. *)
Inductive Promise (A : Type) :=
| Resolved (a : A)
| Rejected (e : Error).
Arguments Rejected {A} e.

(** The body of a [getObject] result. *)
Record StreamingBlob := {
  transformToByteArray : Promise Buffer
}.

(** [Buffer | NodeJS.ReadableStream | string], the content of [put]. *)
Inductive Content :=
| ContentBuffer (b : Buffer)
| ContentStream (s : StreamingBlob)
| ContentString (s : string).

(** [{ Key, Bucket }], the parameters of delete, head and get. *)
Record ObjectParams := {
  Key : string;
  Bucket : string
}.

Module CopyObject.
Record Request := {
  Key : string;
  Bucket : string;
  CopySource : string
}.
Record Output := { ETag : option string }.
End CopyObject.

Module DeleteObject.
Record Output := { DeleteMarker : option bool }.
End DeleteObject.

Module HeadObject.
Record Output := {
  ContentLength : Z;
  LastModified : Date
}.
End HeadObject.

Module GetObject.
Record Output := { Body : option StreamingBlob }.
End GetObject.

Module PutObject.
Record Request := {
  Key : string;
  Body : Content;
  Bucket : string
}.
Record Output := { ETag : option string }.
End PutObject.

Module ListObjectsV2.
Record Request := {
  Bucket : string;
  Prefix : string;
  ContinuationToken : option string;
  MaxKeys : Z
}.
(** One listed object ([_Object] in the SDK); the driver reads [file.Key]. *)
Record Object := {
  Key : string;
  Size : Z
}.
Record Output := {
  Contents : option (list Object);
  NextContinuationToken : option string
}.
End ListObjectsV2.

(** [SignedUrlOptions & any]: the one option the driver reads. *)
Record SignedUrlOptions := { expiresIn : option Z }.

Module Presign.
Record Params := {
  Key : string;
  Bucket : string;
  Expires : Z
}.
End Presign.

(** The S3 client ([this.$driver]) and the presigner, over a backend
    state [W]: a call moves the backend and hands back a promise. *)
Record S3 (W : Type) := {
  copyObject : CopyObject.Request -> W -> Promise CopyObject.Output * W;
  deleteObject : ObjectParams -> W -> Promise DeleteObject.Output * W;
  headObject : ObjectParams -> W -> Promise HeadObject.Output * W;
  getObject : ObjectParams -> W -> Promise GetObject.Output * W;
  putObject : PutObject.Request -> W -> Promise PutObject.Output * W;
  listObjectsV2 : ListObjectsV2.Request -> W -> Promise ListObjectsV2.Output * W;
  getSignedUrl_ : Presign.Params -> SignedUrlOptions -> W -> Promise string * W
}.

(** The calls a driver method makes, in the order it makes them. *)
Inductive Call :=
| CallCopyObject (r : CopyObject.Request)
| CallDeleteObject (r : ObjectParams)
| CallHeadObject (r : ObjectParams)
| CallGetObject (r : ObjectParams)
| CallPutObject (r : PutObject.Request)
| CallListObjectsV2 (r : ListObjectsV2.Request)
| CallGetSignedUrl (r : Presign.Params) (o : SignedUrlOptions).

(* ------------------------------------------------------------------ *)
(** ** The storage abstraction's exceptions and responses *)

(** The four exceptions of the storage abstraction; each keeps the
    error it was built from as its first argument. *)
Inductive StorageException :=
| NoSuchBucketException (err : Error) (bucket : string)
| FileNotFoundException (err : Error) (path : string)
| PermissionMissingException (err : Error) (path : string)
| UnknownException (err : Error) (errName : string) (path : string).

Definition cause (x : StorageException) : Error :=
  match x with
  | NoSuchBucketException err _ => err
  | FileNotFoundException err _ => err
  | PermissionMissingException err _ => err
  | UnknownException err _ _ => err
  end.

(** What a driver method can raise to its caller: an exception of the
    abstraction, or the SDK's own error when nothing caught it. *)
Inductive Thrown :=
| Translated (x : StorageException)
| Native (e : Error).

(** [raw: any]: whatever the driver put in the envelope. *)
Inductive any :=
| undefined
| OfCopy (r : CopyObject.Output)
| OfDelete (r : DeleteObject.Output)
| OfHead (r : HeadObject.Output)
| OfGet (r : GetObject.Output)
| OfPutPromise (p : Promise PutObject.Output)
| OfError (e : Error)
| OfString (s : string)
| OfListed (f : ListObjectsV2.Object).

Record Response := { Response_raw : any }.
Record DeleteResponse := {
  DeleteResponse_raw : any;
  wasDeleted : option bool
}.
Record ExistsResponse := {
  exists_ : bool;
  ExistsResponse_raw : any
}.
Record ContentResponse (T : Type) := {
  content : T;
  ContentResponse_raw : any
}.
Record SignedUrlResponse := {
  signedUrl : string;
  SignedUrlResponse_raw : any
}.
Record StatResponse := {
  size : Z;
  modified : Date;
  StatResponse_raw : any
}.
Record FileListResponse := {
  FileListResponse_raw : any;
  path : string
}.

(** Every response extends [Response]: it has a [raw] field. *)
Class Envelope (R : Type) := raw : R -> any.
#[export] Instance Envelope_Response : Envelope Response := Response_raw.
#[export] Instance Envelope_Delete : Envelope DeleteResponse := DeleteResponse_raw.
#[export] Instance Envelope_Exists : Envelope ExistsResponse := ExistsResponse_raw.
#[export] Instance Envelope_Content T : Envelope (ContentResponse T) :=
  @ContentResponse_raw T.
#[export] Instance Envelope_SignedUrl : Envelope SignedUrlResponse := SignedUrlResponse_raw.
#[export] Instance Envelope_Stat : Envelope StatResponse := StatResponse_raw.
#[export] Instance Envelope_FileList : Envelope FileListResponse := FileListResponse_raw.

(* ------------------------------------------------------------------ *)
(** ** handleError *)

Definition handleError (err : Error) (path : string) (bucket : string)
  : StorageException :=
  if name err =? "NoSuchBucket" then NoSuchBucketException err bucket
  else if name err =? "NoSuchKey" then FileNotFoundException err path
  else if name err =? "AllAccessDisabled" then PermissionMissingException err path
  else UnknownException err (name err) path.

(* ------------------------------------------------------------------ *)
(** ** Asynchronous code: state and exceptions *)

Inductive Result (E A : Type) :=
| Ok (a : A)
| Err (e : E).
Arguments Ok {E A} a.
Arguments Err {E A} e.

(** A computation over a state [S] that returns an [A] or throws an [E]. *)
Definition M (S E A : Type) := S -> Result E A * S.

Definition ret {S E A} (a : A) : M S E A := fun s => (Ok a, s).
Definition throw {S E A} (e : E) : M S E A := fun s => (Err e, s).
Definition bind {S E A B} (m : M S E A) (k : A -> M S E B) : M S E B :=
  fun s => match m s with
           | (Ok a, s') => k a s'
           | (Err e, s') => (Err e, s')
           end.
(** [try { body } catch (e) { handler e }]. *)
Definition try_catch {S E E' A} (body : M S E A) (handler : E -> M S E' A)
  : M S E' A :=
  fun s => match body s with
           | (Ok a, s') => (Ok a, s')
           | (Err e, s') => handler e s'
           end.

Declare Scope async_scope.
Delimit Scope async_scope with async.
Notation "x <- m ;; k" := (bind m (fun x => k))
  (at level 61, m at next level, right associativity) : async_scope.
Notation "'try' body 'catch' handler" := (try_catch body handler)
  (at level 62, body at level 61) : async_scope.
Open Scope async_scope.

(** The truthiness of [string | undefined], as [while (continuationToken)]
    tests it: [undefined] and the empty string are falsy. *)
Definition truthy (s : option string) : bool :=
  match s with
  | Some t => negb (t =? "")
  | None => false
  end.

(** The [TypeError] JavaScript raises on a use of [undefined]. *)
Definition TypeError (msg : string) : Error :=
  {| name := "TypeError"; message := msg; statusCode := None |}.

(** [Buffer.prototype.toString]'s encodings, and [other]: a string that
    names none of them, which the erased type [BufferEncoding] does not
    keep a caller from passing. *)
Inductive BufferEncoding :=
| ascii_enc | utf8 | utf_8 | utf16le | ucs2 | ucs_2
| base64 | base64url | latin1 | binary | hex
| other (label : string).

(** A value that may be [null]. *)
Inductive OrNull (A : Type) :=
| null
| notNull (a : A).
Arguments null {A}.

(* ------------------------------------------------------------------ *)
(** ** The driver *)

Section AwsS3Storage.

(** The backend state, the fields [$driver] and [$bucket] of the
    instance, and Node's [buf.toString(encoding)]. *)
Context {W : Type}.
Variable _driver : S3 W.
Variable _bucket : string.
Variable toString : Buffer -> BufferEncoding -> string.

(** What a method runs against: the backend, and the calls made on the
    client so far. *)
Record World := {
  backend : W;
  calls : list Call
}.

(** A method of the driver. *)
Definition Async (A : Type) := M World Thrown A.

(** A call on the client: it is logged, moves the backend, and yields
    the promise the SDK returns. *)
Definition invoke {E A} (c : Call) (f : W -> Promise A * W)
  : M World E (Promise A) :=
  fun w => let (p, b) := f (backend w) in
           (Ok p, {| backend := b; calls := calls w ++ [c] |}).

(** A call that is made and not awaited: it is logged and its promise
    is in hand, but the request has not reached the backend when the
    method goes on.  The promise is written as what the request settles
    to when it reaches the backend as it is now. *)
Definition launch {E A} (c : Call) (f : W -> Promise A * W)
  : M World E (Promise A) :=
  fun w => (Ok (fst (f (backend w))),
            {| backend := backend w; calls := calls w ++ [c] |}).

Definition await {A} (p : Promise A) : M World Error A :=
  match p with
  | Resolved a => ret a
  | Rejected e => throw e
  end.

(** An error no [catch] of the driver sees reaches the caller as it is. *)
Definition uncaught {A} (m : M World Error A) : Async A :=
  try m catch (fun e => throw (Native e)).

(** [throw handleError(e, path, this.$bucket)]. *)
Definition rethrow {A} (path : string) (e : Error) : Async A :=
  throw (Translated (handleError e path _bucket)).

Definition copy (src dest : string) : Async Response :=
  let request :=
    {| CopyObject.Key := dest;
       CopyObject.Bucket := _bucket;
       CopyObject.CopySource := "/" ++ _bucket ++ "/" ++ src |} in
  try (p <- invoke (CallCopyObject request) (copyObject _driver request) ;;
       result <- await p ;;
       ret {| Response_raw := OfCopy result |})
  catch rethrow src.

Definition delete (location : string) : Async DeleteResponse :=
  let params := {| Key := location; Bucket := _bucket |} in
  try (p <- invoke (CallDeleteObject params) (deleteObject _driver params) ;;
       result <- await p ;;
       ret {| DeleteResponse_raw := OfDelete result; wasDeleted := None |})
  catch rethrow location.

Definition driver : S3 W := _driver.

Definition exists_at (location : string) : Async ExistsResponse :=
  let params := {| Key := location; Bucket := _bucket |} in
  try (p <- invoke (CallHeadObject params) (headObject _driver params) ;;
       result <- await p ;;
       ret {| exists_ := true; ExistsResponse_raw := OfHead result |})
  catch (fun e =>
    match statusCode e with
    | Some 404%Z => ret {| exists_ := false; ExistsResponse_raw := OfError e |}
    | _ => rethrow location e
    end).

Definition getBuffer (location : string) : Async (ContentResponse Buffer) :=
  let params := {| Key := location; Bucket := _bucket |} in
  try (p <- invoke (CallGetObject params) (getObject _driver params) ;;
       result <- await p ;;
       body <- match GetObject.Body result with
               | Some blob => await (transformToByteArray blob)
               | None =>
                 throw (TypeError
                   "Cannot read properties of undefined (reading 'transformToByteArray')")
               end ;;
       ret {| content := body; ContentResponse_raw := OfGet result |})
  catch rethrow location.

(** [toString] is called after the read and outside any [try]: on a
    string that names no encoding it throws, and the [TypeError] goes
    out as it is. *)
Definition get (location : string) (encoding : option BufferEncoding)
  : Async (ContentResponse string) :=
  let encoding := match encoding with Some e => e | None => utf_8 end in
  bufferResult <- getBuffer location ;;
  match encoding with
  | other label => throw (Native (TypeError ("Unknown encoding: " ++ label)))
  | _ =>
    ret {| content := toString (content bufferResult) encoding;
           ContentResponse_raw := raw bufferResult |}
  end.

(** [options] is [SignedUrlOptions & any] with the default [{}]: it may
    be left out, be [null], or be an object.  It is destructured before
    the [try], so on [null] the [TypeError] of the destructuring goes
    out as it is and nothing is signed. *)
Definition getSignedUrl (location : string)
    (options : option (OrNull SignedUrlOptions)) : Async SignedUrlResponse :=
  let options :=
    match options with Some o => o | None => notNull {| expiresIn := None |} end in
  match options with
  | null =>
    throw (Native (TypeError
      "Cannot destructure property 'expiresIn' of 'options' as it is null."))
  | notNull options =>
    let expiresIn := match expiresIn options with Some n => n | None => 900%Z end in
    try (let params :=
           {| Presign.Key := location;
              Presign.Bucket := _bucket;
              Presign.Expires := expiresIn |} in
         p <- invoke (CallGetSignedUrl params options)
                     (getSignedUrl_ _driver params options) ;;
         result <- await p ;;
         ret {| signedUrl := result; SignedUrlResponse_raw := OfString result |})
    catch rethrow location
  end.

Definition getStat (location : string) : Async StatResponse :=
  let params := {| Key := location; Bucket := _bucket |} in
  try (p <- invoke (CallHeadObject params) (headObject _driver params) ;;
       result <- await p ;;
       ret {| size := HeadObject.ContentLength result;
              modified := HeadObject.LastModified result;
              StatResponse_raw := OfHead result |})
  catch rethrow location.

(** No [try] here: the stream, or the client's error, goes out as is. *)
Definition getStream (location : string) : Async (option StreamingBlob) :=
  let params := {| Key := location; Bucket := _bucket |} in
  uncaught (p <- invoke (CallGetObject params) (getObject _driver params) ;;
            res <- await p ;;
            ret (GetObject.Body res)).

Definition move (src dest : string) : Async Response :=
  _ <- copy src dest ;;
  _ <- delete src ;;
  ret {| Response_raw := undefined |}.

(** [putObject] is called and its promise goes into the envelope as it
    is: the source has no [await] on this line, so when [put] returns
    the write is still on its way. *)
Definition put (location : string) (content : Content) : Async Response :=
  let request :=
    {| PutObject.Key := location;
       PutObject.Body := content;
       PutObject.Bucket := _bucket |} in
  try (result <- launch (CallPutObject request) (putObject _driver request) ;;
       ret {| Response_raw := OfPutPromise result |})
  catch rethrow location.

(** *** flatList

    An asynchronous generator.  [flatList] below is the generator
    consumed to its end by a [for await] loop that never breaks: the
    entries it yielded, in order, and how it finished.  The [do ... while]
    loop has no bound of its own, so the model counts page requests
    down from [fuel] and reports [Suspended] when they run out. *)
Inductive Finish :=
| Completed
| Raised (t : Thrown)
| Suspended.

Record Consumed := {
  yielded : list FileListResponse;
  finish : Finish
}.

Definition entry (file : ListObjectsV2.Object) : FileListResponse :=
  {| FileListResponse_raw := OfListed file;
     path := ListObjectsV2.Key file |}.

(** One turn of the loop body up to the [for]: the page request, the
    token it returned and the array the [for ... of] iterates. *)
Definition fetchPage (prefix : string) (continuationToken : option string)
  : M World Error (option string * list ListObjectsV2.Object) :=
  let request :=
    {| ListObjectsV2.Bucket := _bucket;
       ListObjectsV2.Prefix := prefix;
       ListObjectsV2.ContinuationToken := continuationToken;
       ListObjectsV2.MaxKeys := 1000 |} in
  p <- invoke (CallListObjectsV2 request) (listObjectsV2 _driver request) ;;
  response <- await p ;;
  match ListObjectsV2.Contents response with
  | Some files => ret (ListObjectsV2.NextContinuationToken response, files)
  | None => throw (TypeError "response.Contents is not iterable")
  end.

Fixpoint flatList_from (fuel : nat) (prefix : string)
    (continuationToken : option string) (w : World) : Consumed * World :=
  match fuel with
  | O => ({| yielded := []; finish := Suspended |}, w)
  | S fuel' =>
    match fetchPage prefix continuationToken w with
    | (Err e, w1) =>
      ({| yielded := [];
          finish := Raised (Translated (handleError e prefix _bucket)) |}, w1)
    | (Ok (token, files), w1) =>
      if truthy token then
        let (rest, w2) := flatList_from fuel' prefix token w1 in
        ({| yielded := map entry files ++ yielded rest;
            finish := finish rest |}, w2)
      else ({| yielded := map entry files; finish := Completed |}, w1)
    end
  end.

Definition flatList (fuel : nat) (prefix : option string) (w : World)
  : Consumed * World :=
  let prefix := match prefix with Some p => p | None => "" end in
  flatList_from fuel prefix None w.

End AwsS3Storage.

Arguments World W : clear implicits.

(** A world in which no call has been made yet. *)
Definition fresh {W} (b : W) : World W := {| backend := b; calls := [] |}.

(* ------------------------------------------------------------------ *)
(** ** What the driver expects of a listing backend

    [serves d bucket prefix token b objs b']: asked for pages of at most
    1000 entries of [prefix] starting at [token], the backend in state
    [b] hands out the objects [objs], page after page, each page but the
    last with a continuation token, and is left in state [b']. *)
Inductive serves {W} (d : S3 W) (bucket prefix : string)
  : option string -> W -> list ListObjectsV2.Object -> W -> Prop :=
| serves_last token b page b' :
    listObjectsV2 d
      {| ListObjectsV2.Bucket := bucket; ListObjectsV2.Prefix := prefix;
         ListObjectsV2.ContinuationToken := token;
         ListObjectsV2.MaxKeys := 1000 |} b
    = (Resolved {| ListObjectsV2.Contents := Some page;
                   ListObjectsV2.NextContinuationToken := None |}, b') ->
    serves d bucket prefix token b page b'
| serves_more token b page next b1 rest b' :
    listObjectsV2 d
      {| ListObjectsV2.Bucket := bucket; ListObjectsV2.Prefix := prefix;
         ListObjectsV2.ContinuationToken := token;
         ListObjectsV2.MaxKeys := 1000 |} b
    = (Resolved {| ListObjectsV2.Contents := Some page;
                   ListObjectsV2.NextContinuationToken := Some next |}, b1) ->
    next <> "" ->
    serves d bucket prefix (Some next) b1 rest b' ->
    serves d bucket prefix token b (page ++ rest) b'.

(* ------------------------------------------------------------------ *)
(** ** An in-memory bucket

    A reference backend: one bucket, a table of objects in listing
    order, and a set of keys that are locked against writes.  It answers
    as S3 does where the driver can tell the difference: a missing key
    is a 404 (named [NotFound] on a head, [NoSuchKey] on a read or a
    copy), a write to a locked key is a 403, a delete of a missing key
    succeeds, and a listing is cut into pages of [MaxKeys] entries
    joined by continuation tokens. *)
Module MemS3.

Record State := {
  bucketName : string;
  objects : list (string * Buffer);
  locked : list string
}.

Definition error (n : string) (status : Z) : Error :=
  {| name := n; message := n; statusCode := Some status |}.

Fixpoint lookup (k : string) (l : list (string * Buffer)) : option Buffer :=
  match l with
  | [] => None
  | (k', v) :: t => if k' =? k then Some v else lookup k t
  end.

Fixpoint store (k : string) (v : Buffer) (l : list (string * Buffer))
  : list (string * Buffer) :=
  match l with
  | [] => [(k, v)]
  | (k', v') :: t => if k' =? k then (k, v) :: t else (k', v') :: store k v t
  end.

Definition remove (k : string) (l : list (string * Buffer))
  : list (string * Buffer) :=
  filter (fun kv => negb (fst kv =? k)) l.

Definition isLocked (k : string) (st : State) : bool :=
  existsb (String.eqb k) (locked st).

Definition withObjects (st : State) (l : list (string * Buffer)) : State :=
  {| bucketName := bucketName st; objects := l; locked := locked st |}.

(** [s] without its leading [p], when it starts with [p]. *)
Fixpoint stripPrefix (p s : string) : option string :=
  match p, s with
  | EmptyString, _ => Some s
  | String a p', String b s' => if Ascii.eqb a b then stripPrefix p' s' else None
  | String _ _, EmptyString => None
  end.

Definition decimal (n : nat) : string := NilEmpty.string_of_uint (Nat.to_uint n).

(** Continuation tokens: ["#"] and the offset of the next page. *)
Definition tokenOf (n : nat) : string := String "#" (decimal n).
Definition offsetOf (token : option string) : option nat :=
  match token with
  | None => Some 0
  | Some (String "#" t) => option_map Nat.of_uint (NilEmpty.uint_of_string t)
  | Some _ => None
  end.

Definition inBucket {A} (b : string) (st : State) (k : Promise A * State)
  : Promise A * State :=
  if b =? bucketName st then k else (Rejected (error "NoSuchBucket" 404), st).

Definition copyObject (r : CopyObject.Request) (st : State)
  : Promise CopyObject.Output * State :=
  inBucket (CopyObject.Bucket r) st
    match stripPrefix ("/" ++ bucketName st ++ "/") (CopyObject.CopySource r) with
    | None => (Rejected (error "InvalidArgument" 400), st)
    | Some src =>
      match lookup src (objects st) with
      | None => (Rejected (error "NoSuchKey" 404), st)
      | Some v =>
        if isLocked (CopyObject.Key r) st
        then (Rejected (error "AccessDenied" 403), st)
        else (Resolved {| CopyObject.ETag := None |},
              withObjects st (store (CopyObject.Key r) v (objects st)))
      end
    end.

Definition deleteObject (r : ObjectParams) (st : State)
  : Promise DeleteObject.Output * State :=
  inBucket (Bucket r) st
    (if isLocked (Key r) st
     then (Rejected (error "AccessDenied" 403), st)
     else (Resolved {| DeleteObject.DeleteMarker := None |},
           withObjects st (remove (Key r) (objects st)))).

Definition headObject (r : ObjectParams) (st : State)
  : Promise HeadObject.Output * State :=
  inBucket (Bucket r) st
    match lookup (Key r) (objects st) with
    | None => (Rejected (error "NotFound" 404), st)
    | Some v =>
      (Resolved {| HeadObject.ContentLength := Z.of_nat (length v);
                   HeadObject.LastModified := 0%Z |}, st)
    end.

Definition getObject (r : ObjectParams) (st : State)
  : Promise GetObject.Output * State :=
  inBucket (Bucket r) st
    match lookup (Key r) (objects st) with
    | None => (Rejected (error "NoSuchKey" 404), st)
    | Some v =>
      (Resolved {| GetObject.Body :=
                     Some {| transformToByteArray := Resolved v |} |}, st)
    end.

Definition bytesOf (c : Content) : Promise Buffer :=
  match c with
  | ContentBuffer b => Resolved b
  | ContentStream s => transformToByteArray s
  | ContentString s => Resolved (list_byte_of_string s)
  end.

Definition putObject (r : PutObject.Request) (st : State)
  : Promise PutObject.Output * State :=
  inBucket (PutObject.Bucket r) st
    (if isLocked (PutObject.Key r) st
     then (Rejected (error "AccessDenied" 403), st)
     else match bytesOf (PutObject.Body r) with
          | Rejected e => (Rejected e, st)
          | Resolved v =>
            (Resolved {| PutObject.ETag := None |},
             withObjects st (store (PutObject.Key r) v (objects st)))
          end).

Definition listed (kv : string * Buffer) : ListObjectsV2.Object :=
  {| ListObjectsV2.Key := fst kv;
     ListObjectsV2.Size := Z.of_nat (length (snd kv)) |}.

(** The objects of the bucket under [p], in listing order. *)
Definition matching (p : string) (st : State) : list ListObjectsV2.Object :=
  map listed (filter (fun kv => String.prefix p (fst kv)) (objects st)).

Definition listObjectsV2 (r : ListObjectsV2.Request) (st : State)
  : Promise ListObjectsV2.Output * State :=
  inBucket (ListObjectsV2.Bucket r) st
    match offsetOf (ListObjectsV2.ContinuationToken r) with
    | None => (Rejected (error "InvalidArgument" 400), st)
    | Some n =>
      let rest := skipn n (matching (ListObjectsV2.Prefix r) st) in
      let k := Z.to_nat (ListObjectsV2.MaxKeys r) in
      (Resolved
         {| ListObjectsV2.Contents := Some (firstn k rest);
            ListObjectsV2.NextContinuationToken :=
              if (length rest <=? k)%nat then None else Some (tokenOf (n + k)) |},
       st)
    end.

Definition getSignedUrl (r : Presign.Params) (o : SignedUrlOptions) (st : State)
  : Promise string * State :=
  (Resolved ("https://" ++ Presign.Bucket r ++ ".s3.amazonaws.com/"
             ++ Presign.Key r ++ "?X-Amz-Expires="
             ++ decimal (Z.to_nat (Presign.Expires r))), st).

Definition client : S3 State :=
  @Build_S3 State copyObject deleteObject headObject getObject putObject
            listObjectsV2 getSignedUrl.

(** The single-byte decoding of a buffer ([latin1], alias [binary]):
    one character per byte.  The other encodings are not modelled; the
    driver is only ever run below with one of these two. *)
Definition toString (b : Buffer) (_ : BufferEncoding) : string :=
  string_of_list_byte b.

(** [Buffer.from(text, 'latin1')] on text of single-byte characters. *)
Definition fromString (s : string) (_ : BufferEncoding) : Buffer :=
  list_byte_of_string s.

End MemS3.

(** A backend that is down: every call is rejected with the same error. *)
Module Down.

Definition client (e : Error) : S3 unit :=
  @Build_S3 unit
    (fun _ u => (Rejected e, u)) (fun _ u => (Rejected e, u))
    (fun _ u => (Rejected e, u)) (fun _ u => (Rejected e, u))
    (fun _ u => (Rejected e, u)) (fun _ u => (Rejected e, u))
    (fun _ _ u => (Rejected e, u)).

End Down.

(** A bucket ["media"] holding two objects, one of them locked. *)
Definition media : MemS3.State :=
  {| MemS3.bucketName := "media";
     MemS3.objects :=
       [("a.txt", list_byte_of_string "alpha");
        ("logo.png", list_byte_of_string "PNG")];
     MemS3.locked := ["logo.png"] |}.

(** The world after the one probe [exists] and [getStat] make. *)
Definition probed {W} (bucket location : string) (w : World W) (b : W)
  : World W :=
  {| backend := b;
     calls := calls w ++ [CallHeadObject {| Key := location; Bucket := bucket |}] |}.

(** A request for one page of at most 1000 entries under [prefix]. *)
Definition isPageRequest (bucket prefix : string) (c : Call) : Prop :=
  exists token,
    c = CallListObjectsV2
          {| ListObjectsV2.Bucket := bucket; ListObjectsV2.Prefix := prefix;
             ListObjectsV2.ContinuationToken := token;
             ListObjectsV2.MaxKeys := 1000 |}.

(** A bucket ["logs"] holding [n] objects, ["day-0"] to ["day-<n-1>"]. *)
Definition logs (n : nat) : MemS3.State :=
  {| MemS3.bucketName := "logs";
     MemS3.objects :=
       map (fun i => ("day-" ++ MemS3.decimal i, [])) (seq 0 n);
     MemS3.locked := [] |}.

(** The world after the one read [getBuffer] and [getStream] make. *)
Definition fetched {W} (bucket location : string) (w : World W) (b : W)
  : World W :=
  {| backend := b;
     calls := calls w ++ [CallGetObject {| Key := location; Bucket := bucket |}] |}.

(** Whether a [raw] is something the backend returned for a call: a
    result, a listed object, a signed URL or, for [exists], its error;
    not [undefined] and not a promise still to be awaited. *)
Definition backendNative (a : any) : bool :=
  match a with
  | OfCopy _ | OfDelete _ | OfHead _ | OfGet _
  | OfError _ | OfString _ | OfListed _ => true
  | undefined | OfPutPromise _ => false
  end.

(* ------------------------------------------------------------------ *)
(** ** Construction

    [new AwsS3Storage(config)].  The configuration is one JavaScript
    object: the fields [key], [secret] and [bucket], and whatever
    options of the client it carries besides.  Objects are property
    lists; [{ a: x, ...o }] defines [a] and then assigns every own
    property of [o] over it. *)
Definition JsObject := list (string * any).

Fixpoint hasProp (p : string) (o : JsObject) : bool :=
  match o with
  | [] => false
  | (q, _) :: t => (q =? p) || hasProp p t
  end.

Fixpoint getProp (p : string) (o : JsObject) : any :=
  match o with
  | [] => undefined
  | (q, v) :: t => if q =? p then v else getProp p t
  end.

Fixpoint setProp (p : string) (v : any) (o : JsObject) : JsObject :=
  match o with
  | [] => [(p, v)]
  | (q, u) :: t => if q =? p then (p, v) :: t else (q, u) :: setProp p v t
  end.

(** [{ ...target, ...source }]. *)
Definition spread (target source : JsObject) : JsObject :=
  fold_left (fun o kv => setProp (fst kv) (snd kv) o) source target.

Module Config.
Record AmazonWebServicesS3StorageConfig := {
  key : string;
  secret : string;
  bucket : string;
  clientConfig : JsObject
}.

(** The configuration as the object the constructor spreads. *)
Definition object (c : AmazonWebServicesS3StorageConfig) : JsObject :=
  setProp "bucket" (OfString (bucket c))
    (setProp "secret" (OfString (secret c))
       (setProp "key" (OfString (key c)) (clientConfig c))).
End Config.

(** The options the constructor hands to [new S3(...)]. *)
Definition clientOptions (config : Config.AmazonWebServicesS3StorageConfig)
  : JsObject :=
  spread [("accessKeyId", OfString (Config.key config));
          ("secretAccessKey", OfString (Config.secret config))]
         (Config.object config).

(** An instance: the two fields the constructor sets. *)
Record AwsS3Storage (W : Type) := {
  instance_driver : S3 W;
  instance_bucket : string
}.

(** The constructor, over the SDK's own [new S3(options)]. *)
Definition construct {W} (newS3 : JsObject -> S3 W)
    (config : Config.AmazonWebServicesS3StorageConfig) : AwsS3Storage W :=
  {| instance_driver := newS3 (clientOptions config);
     instance_bucket := Config.bucket config |}.

(* ------------------------------------------------------------------ *)
(** ** The kinds of exception *)

Inductive Kind :=
| BucketNotFound
| ObjectNotFound
| PermissionDenied
| UnknownStorageError.

Definition kindOf (x : StorageException) : Kind :=
  match x with
  | NoSuchBucketException _ _ => BucketNotFound
  | FileNotFoundException _ _ => ObjectNotFound
  | PermissionMissingException _ _ => PermissionDenied
  | UnknownException _ _ _ => UnknownStorageError
  end.

(* ------------------------------------------------------------------ *)
(** ** More backends *)

(** [breaks d bucket prefix token b objs e b']: from [token] on, the
    backend in state [b] hands out the objects [objs] in pages that all
    carry a continuation token, and then fails the next page with [e]:
    either the request is rejected with [e], or the page comes without
    [Contents] and [e] is the [TypeError] of iterating it. *)
Inductive breaks {W} (d : S3 W) (bucket prefix : string)
  : option string -> W -> list ListObjectsV2.Object -> Error -> W -> Prop :=
| breaks_rejected token b e b' :
    listObjectsV2 d
      {| ListObjectsV2.Bucket := bucket; ListObjectsV2.Prefix := prefix;
         ListObjectsV2.ContinuationToken := token;
         ListObjectsV2.MaxKeys := 1000 |} b
    = (Rejected e, b') ->
    breaks d bucket prefix token b [] e b'
| breaks_undefined token b next b' :
    listObjectsV2 d
      {| ListObjectsV2.Bucket := bucket; ListObjectsV2.Prefix := prefix;
         ListObjectsV2.ContinuationToken := token;
         ListObjectsV2.MaxKeys := 1000 |} b
    = (Resolved {| ListObjectsV2.Contents := None;
                   ListObjectsV2.NextContinuationToken := next |}, b') ->
    breaks d bucket prefix token b []
           (TypeError "response.Contents is not iterable") b'
| breaks_later token b page next b1 rest e b' :
    listObjectsV2 d
      {| ListObjectsV2.Bucket := bucket; ListObjectsV2.Prefix := prefix;
         ListObjectsV2.ContinuationToken := token;
         ListObjectsV2.MaxKeys := 1000 |} b
    = (Resolved {| ListObjectsV2.Contents := Some page;
                   ListObjectsV2.NextContinuationToken := Some next |}, b1) ->
    next <> "" ->
    breaks d bucket prefix (Some next) b1 rest e b' ->
    breaks d bucket prefix token b (page ++ rest) e b'.

(** A client that plays a script: each call takes the next reply when
    it is a reply to that kind of call, and is rejected otherwise. *)
Module Scripted.

Inductive Reply :=
| ReplyCopy (p : Promise CopyObject.Output)
| ReplyDelete (p : Promise DeleteObject.Output)
| ReplyHead (p : Promise HeadObject.Output)
| ReplyGet (p : Promise GetObject.Output)
| ReplyPut (p : Promise PutObject.Output)
| ReplyList (p : Promise ListObjectsV2.Output)
| ReplyUrl (p : Promise string).

Definition State := list Reply.

Definition unexpected : Error :=
  {| name := "UnexpectedCall"; message := "no reply"; statusCode := None |}.

Definition client : S3 State :=
  @Build_S3 State
    (fun _ s => match s with
                | ReplyCopy p :: rest => (p, rest)
                | _ => (Rejected unexpected, s)
                end)
    (fun _ s => match s with
                | ReplyDelete p :: rest => (p, rest)
                | _ => (Rejected unexpected, s)
                end)
    (fun _ s => match s with
                | ReplyHead p :: rest => (p, rest)
                | _ => (Rejected unexpected, s)
                end)
    (fun _ s => match s with
                | ReplyGet p :: rest => (p, rest)
                | _ => (Rejected unexpected, s)
                end)
    (fun _ s => match s with
                | ReplyPut p :: rest => (p, rest)
                | _ => (Rejected unexpected, s)
                end)
    (fun _ s => match s with
                | ReplyList p :: rest => (p, rest)
                | _ => (Rejected unexpected, s)
                end)
    (fun _ _ s => match s with
                  | ReplyUrl p :: rest => (p, rest)
                  | _ => (Rejected unexpected, s)
                  end).

End Scripted.

(** A backend whose listing never ends: every page holds one object and
    a continuation token. *)
Module Endless.

Definition page : ListObjectsV2.Output :=
  {| ListObjectsV2.Contents :=
       Some [{| ListObjectsV2.Key := "again"; ListObjectsV2.Size := 0 |}];
     ListObjectsV2.NextContinuationToken := Some "more" |}.

Definition client : S3 unit :=
  @Build_S3 unit
    (fun _ u => (Rejected Scripted.unexpected, u))
    (fun _ u => (Rejected Scripted.unexpected, u))
    (fun _ u => (Rejected Scripted.unexpected, u))
    (fun _ u => (Rejected Scripted.unexpected, u))
    (fun _ u => (Rejected Scripted.unexpected, u))
    (fun _ u => (Resolved page, u))
    (fun _ _ u => (Rejected Scripted.unexpected, u)).

End Endless.

(** ** A bucket that behaves as a store

    [StoreLike d bucket view]: through client [d], bucket [bucket] is a
    table of objects, [view b] in backend state [b].  A head or a read
    changes nothing and is rejected exactly on an absent key, whatever
    the error it is rejected with; a read that resolves carries the
    bytes of the key.  A copy, a delete or a write that resolves
    changes the one key it names, and one that is rejected changes
    nothing. *)
Definition StoreLike {W} (d : S3 W) (bucket : string)
    (view : W -> string -> option Buffer) : Prop :=
  (forall k b,
     match headObject d {| Key := k; Bucket := bucket |} b with
     | (Resolved _, b') => b' = b /\ view b k <> None
     | (Rejected _, b') => b' = b /\ view b k = None
     end) /\
  (forall k b,
     match getObject d {| Key := k; Bucket := bucket |} b with
     | (Resolved r, b') =>
       b' = b /\
       exists v, view b k = Some v /\
                 GetObject.Body r = Some {| transformToByteArray := Resolved v |}
     | (Rejected _, b') => b' = b /\ view b k = None
     end) /\
  (forall src dest b,
     match copyObject d
             {| CopyObject.Key := dest; CopyObject.Bucket := bucket;
                CopyObject.CopySource := "/" ++ bucket ++ "/" ++ src |} b with
     | (Resolved _, b') =>
       exists v, view b src = Some v /\
                 forall k, view b' k = if k =? dest then Some v else view b k
     | (Rejected _, b') => b' = b
     end) /\
  (forall location b,
     match deleteObject d {| Key := location; Bucket := bucket |} b with
     | (Resolved _, b') =>
       forall k, view b' k = if k =? location then None else view b k
     | (Rejected _, b') => b' = b
     end) /\
  (forall location bytes b,
     match putObject d
             {| PutObject.Key := location;
                PutObject.Body := ContentBuffer bytes;
                PutObject.Bucket := bucket |} b with
     | (Resolved _, b') =>
       forall k, view b' k = if k =? location then Some bytes else view b k
     | (Rejected _, b') => b' = b
     end).

(** The table of an in-memory bucket, seen as the bucket [bucket]. *)
Definition memView (bucket : string) (st : MemS3.State) (k : string)
  : option Buffer :=
  if bucket =? MemS3.bucketName st then MemS3.lookup k (MemS3.objects st)
  else None.

(** The world once the write that [put] launched has reached the
    backend. *)
Definition landed {W} (d : S3 W) (bucket location : string) (content : Content)
    (w : World W) : World W :=
  {| backend :=
       snd (putObject d
              {| PutObject.Key := location; PutObject.Body := content;
                 PutObject.Bucket := bucket |} (backend w));
     calls := calls w |}.

(** ** The in-memory bucket behind the client the driver imports

    The driver reads two things off what the client of
    [@aws-sdk/client-s3] (version 3) hands it, and on both that client
    differs from what the code expects.  A service error carries its
    HTTP status under [$metadata.httpStatusCode]: it has no
    [statusCode].  And the result of a listing that matched nothing has
    no [Contents].  [SdkV3.client] answers as the in-memory bucket does,
    with these two differences. *)
Module SdkV3.

Definition serviceError (e : Error) : Error :=
  {| name := name e; message := message e; statusCode := None |}.

Definition settled {A} (x : Promise A * MemS3.State)
  : Promise A * MemS3.State :=
  match x with
  | (Resolved a, st) => (Resolved a, st)
  | (Rejected e, st) => (Rejected (serviceError e), st)
  end.

Definition listing (o : ListObjectsV2.Output) : ListObjectsV2.Output :=
  {| ListObjectsV2.Contents :=
       match ListObjectsV2.Contents o with
       | Some [] => None
       | c => c
       end;
     ListObjectsV2.NextContinuationToken :=
       ListObjectsV2.NextContinuationToken o |}.

Definition listObjectsV2 (r : ListObjectsV2.Request) (st : MemS3.State)
  : Promise ListObjectsV2.Output * MemS3.State :=
  match MemS3.listObjectsV2 r st with
  | (Resolved o, st') => (Resolved (listing o), st')
  | (Rejected e, st') => (Rejected (serviceError e), st')
  end.

Definition client : S3 MemS3.State :=
  @Build_S3 MemS3.State
    (fun r st => settled (MemS3.copyObject r st))
    (fun r st => settled (MemS3.deleteObject r st))
    (fun r st => settled (MemS3.headObject r st))
    (fun r st => settled (MemS3.getObject r st))
    (fun r st => settled (MemS3.putObject r st))
    listObjectsV2
    (fun r o st => settled (MemS3.getSignedUrl r o st)).

End SdkV3.

(* ================================================================== *)
(** * Properties *)

(** Unfolds a driver method down to the client call it makes. *)
Ltac run :=
  cbv beta delta
    [copy delete exists_at getBuffer get getSignedUrl getStat getStream move
     put uncaught rethrow invoke launch await try_catch bind ret throw fetchPage
     raw Envelope_Response Envelope_Delete Envelope_Exists Envelope_Content
     Envelope_SignedUrl Envelope_Stat Envelope_FileList]; cbn.

(** ** handleError *)

Lemma handleError_cause (err : Error) (path bucket : string) :
  cause (handleError err path bucket) = err.
Proof.
  unfold handleError.
  repeat match goal with |- context [if ?b then _ else _] => destruct b end;
    reflexivity.
Qed.

(** C1. [handleError] maps every backend error, by its name alone, to
    one of the four exceptions: ['NoSuchBucket'] to [NoSuchBucketException]
    with the bucket, ['NoSuchKey'] to [FileNotFoundException] with the
    path, ['AllAccessDisabled'] to [PermissionMissingException] with the
    path, any other name to [UnknownException] with that name and the
    path; and the exception keeps the error as its cause. *)
Theorem handleError_total (err : Error) (path bucket : string) :
  (name err = "NoSuchBucket" ->
     handleError err path bucket = NoSuchBucketException err bucket) /\
  (name err = "NoSuchKey" ->
     handleError err path bucket = FileNotFoundException err path) /\
  (name err = "AllAccessDisabled" ->
     handleError err path bucket = PermissionMissingException err path) /\
  (name err <> "NoSuchBucket" -> name err <> "NoSuchKey" ->
   name err <> "AllAccessDisabled" ->
     handleError err path bucket = UnknownException err (name err) path) /\
  cause (handleError err path bucket) = err.
Proof.
  repeat split; try apply handleError_cause; unfold handleError.
  - intros ->. reflexivity.
  - intros ->. reflexivity.
  - intros ->. reflexivity.
  - intros H1 H2 H3.
    apply String.eqb_neq in H1, H2, H3. now rewrite H1, H2, H3.
Qed.

Lemma handleError_total_witness :
  handleError (MemS3.error "NoSuchKey" 404) "a.txt" "media"
    = FileNotFoundException (MemS3.error "NoSuchKey" 404) "a.txt" /\
  handleError (MemS3.error "SlowDown" 503) "a.txt" "media"
    = UnknownException (MemS3.error "SlowDown" 503) "SlowDown" "a.txt".
Proof.
  split.
  - apply (handleError_total (MemS3.error "NoSuchKey" 404) "a.txt" "media").
    reflexivity.
  - apply (handleError_total (MemS3.error "SlowDown" 503) "a.txt" "media");
      discriminate.
Defined.

(** ** exists *)

Section Exists.
Context {W : Type} (d : S3 W) (bucket location : string) (w : World W).

Lemma exists_at_present result b :
  headObject d {| Key := location; Bucket := bucket |} (backend w)
    = (Resolved result, b) ->
  exists_at d bucket location w
  = (Ok {| exists_ := true; ExistsResponse_raw := OfHead result |},
     probed bucket location w b).
Proof. intros H. run. rewrite H. reflexivity. Qed.

Lemma exists_at_absent e b :
  headObject d {| Key := location; Bucket := bucket |} (backend w)
    = (Rejected e, b) ->
  statusCode e = Some 404%Z ->
  exists_at d bucket location w
  = (Ok {| exists_ := false; ExistsResponse_raw := OfError e |},
     probed bucket location w b).
Proof. intros H Hs. run. rewrite H. cbn. rewrite Hs. reflexivity. Qed.

Lemma exists_at_failed e b :
  headObject d {| Key := location; Bucket := bucket |} (backend w)
    = (Rejected e, b) ->
  statusCode e <> Some 404%Z ->
  exists_at d bucket location w
  = (Err (Translated (handleError e location bucket)),
     probed bucket location w b).
Proof.
  intros H Hs. run. rewrite H. cbn.
  destruct (statusCode e) as [z|]; [|reflexivity].
  destruct (Z.eq_dec z 404) as [->|Hz]; [congruence|].
  destruct z as [|p|p]; try reflexivity.
  repeat (destruct p as [p|p|]; try reflexivity). congruence.
Qed.

End Exists.

(** C3 (the code departs from it).  Through the client the driver
    imports, the probe of a key the bucket does not hold is rejected
    with an error named ['NotFound'] that carries no [statusCode].
    [exists] then misses its own short-circuit: it raises an
    [UnknownException] where the claim, and the handler's test, mean it
    to return [{exists: false}].  The probe is the one call made. *)
Theorem exists_misses_not_found :
  exists_at SdkV3.client "media" "gone.txt" (fresh media)
  = (Err (Translated
            (UnknownException (mkError "NotFound" "NotFound" None)
                              "NotFound" "gone.txt")),
     {| backend := media;
        calls := [CallHeadObject {| Key := "gone.txt"; Bucket := "media" |}] |}).
Proof. reflexivity. Qed.



(** ** copy, delete and move *)

Section CopyDelete.
Context {W : Type} (d : S3 W) (bucket : string).

Lemma copy_resolved src dest (w : World W) request result b :
  request = {| CopyObject.Key := dest; CopyObject.Bucket := bucket;
               CopyObject.CopySource := "/" ++ bucket ++ "/" ++ src |} ->
  copyObject d request (backend w) = (Resolved result, b) ->
  copy d bucket src dest w
  = (Ok {| Response_raw := OfCopy result |},
     {| backend := b; calls := calls w ++ [CallCopyObject request] |}).
Proof. intros -> H. run. cbn in H. rewrite H. reflexivity. Qed.

Lemma copy_rejected src dest (w : World W) request e b :
  request = {| CopyObject.Key := dest; CopyObject.Bucket := bucket;
               CopyObject.CopySource := "/" ++ bucket ++ "/" ++ src |} ->
  copyObject d request (backend w) = (Rejected e, b) ->
  copy d bucket src dest w
  = (Err (Translated (handleError e src bucket)),
     {| backend := b; calls := calls w ++ [CallCopyObject request] |}).
Proof. intros -> H. run. cbn in H. rewrite H. reflexivity. Qed.

Lemma delete_resolved location (w : World W) result b :
  deleteObject d {| Key := location; Bucket := bucket |} (backend w)
    = (Resolved result, b) ->
  delete d bucket location w
  = (Ok {| DeleteResponse_raw := OfDelete result; wasDeleted := None |},
     {| backend := b;
        calls := calls w
                 ++ [CallDeleteObject {| Key := location; Bucket := bucket |}] |}).
Proof. intros H. run. rewrite H. reflexivity. Qed.

Lemma delete_rejected location (w : World W) e b :
  deleteObject d {| Key := location; Bucket := bucket |} (backend w)
    = (Rejected e, b) ->
  delete d bucket location w
  = (Err (Translated (handleError e location bucket)),
     {| backend := b;
        calls := calls w
                 ++ [CallDeleteObject {| Key := location; Bucket := bucket |}] |}).
Proof. intros H. run. rewrite H. reflexivity. Qed.

(** [delete] returns exactly when the backend's delete resolved. *)
Lemma delete_returns location (w : World W) resp w' :
  delete d bucket location w = (Ok resp, w') ->
  exists result,
    fst (deleteObject d {| Key := location; Bucket := bucket |} (backend w))
      = Resolved result /\
    resp = {| DeleteResponse_raw := OfDelete result; wasDeleted := None |}.
Proof.
  destruct (deleteObject d {| Key := location; Bucket := bucket |} (backend w))
    as [[result|e] b] eqn:H.
  - rewrite (delete_resolved _ _ H). intros [= <- _]. now exists result.
  - rewrite (delete_rejected _ _ H). discriminate.
Qed.

End CopyDelete.

(** C9. Whenever [delete(L)] returns, the [wasDeleted] field of its
    response is [null], neither [true] nor [false], whatever the
    backend held before the call. *)
Theorem delete_wasDeleted_unknown W (d : S3 W) (bucket location : string)
    (w w' : World W) (resp : DeleteResponse) :
  delete d bucket location w = (Ok resp, w') ->
  wasDeleted resp = None.
Proof.
  intros H. apply delete_returns in H as (result & _ & ->). reflexivity.
Qed.

(** [delete] of an object the bucket holds, and of one it does not. *)
Lemma delete_wasDeleted_unknown_witness :
  (exists resp w',
     delete MemS3.client "media" "a.txt" (fresh media) = (Ok resp, w') /\
     MemS3.lookup "a.txt" (MemS3.objects media) <> None /\
     wasDeleted resp = None) /\
  (exists resp w',
     delete MemS3.client "media" "gone.txt" (fresh media) = (Ok resp, w') /\
     MemS3.lookup "gone.txt" (MemS3.objects media) = None /\
     wasDeleted resp = None).
Proof.
  split; do 2 eexists; (split; [reflexivity|]); (split; [cbn; congruence|]).
  - eapply (delete_wasDeleted_unknown MemS3.client "media" "a.txt" (fresh media)).
    reflexivity.
  - eapply (delete_wasDeleted_unknown MemS3.client "media" "gone.txt" (fresh media)).
    reflexivity.
Defined.

(** C4. [move(src, dest)] is [copy(src, dest)] followed by [delete(src)]
    and returns [{raw: undefined}] when both return.  It is not atomic.
    When the copy is rejected, [move] raises the translated error of the
    copy, the only call made is the copy, and the backend is as the
    rejected copy left it.  When the copy resolves and the delete is
    rejected, [move] raises the translated error of the delete and the
    backend is as the copy followed by the rejected delete left it:
    nothing undoes the copy. *)
Theorem move_copy_then_delete W (d : S3 W) (bucket src dest : string)
    (w : World W) :
  let request :=
    {| CopyObject.Key := dest; CopyObject.Bucket := bucket;
       CopyObject.CopySource := "/" ++ bucket ++ "/" ++ src |} in
  let params := {| Key := src; Bucket := bucket |} in
  move d bucket src dest w
  = (match copy d bucket src dest w with
     | (Ok _, w1) =>
       match delete d bucket src w1 with
       | (Ok _, w2) => (Ok {| Response_raw := undefined |}, w2)
       | (Err t, w2) => (Err t, w2)
       end
     | (Err t, w1) => (Err t, w1)
     end) /\
  (forall e b1,
     copyObject d request (backend w) = (Rejected e, b1) ->
     move d bucket src dest w
     = (Err (Translated (handleError e src bucket)),
        {| backend := b1; calls := calls w ++ [CallCopyObject request] |})) /\
  (forall r b1 e b2,
     copyObject d request (backend w) = (Resolved r, b1) ->
     deleteObject d params b1 = (Rejected e, b2) ->
     move d bucket src dest w
     = (Err (Translated (handleError e src bucket)),
        {| backend := b2;
           calls := calls w ++ [CallCopyObject request; CallDeleteObject params] |})) /\
  (forall r b1 r' b2,
     copyObject d request (backend w) = (Resolved r, b1) ->
     deleteObject d params b1 = (Resolved r', b2) ->
     move d bucket src dest w
     = (Ok {| Response_raw := undefined |},
        {| backend := b2;
           calls := calls w ++ [CallCopyObject request; CallDeleteObject params] |})).
Proof.
  intros request params.
  assert (Hdef : move d bucket src dest w
    = match copy d bucket src dest w with
      | (Ok _, w1) =>
        match delete d bucket src w1 with
        | (Ok _, w2) => (Ok {| Response_raw := undefined |}, w2)
        | (Err t, w2) => (Err t, w2)
        end
      | (Err t, w1) => (Err t, w1)
      end).
  { unfold move, bind, ret.
    destruct (copy d bucket src dest w) as [[? | ?] w1]; [|reflexivity].
    destruct (delete d bucket src w1) as [[? | ?] w2]; reflexivity. }
  split; [exact Hdef|]. rewrite Hdef. split; [|split].
  - intros e b1 Hc.
    erewrite copy_rejected; [reflexivity | reflexivity | exact Hc].
  - intros r b1 e b2 Hc Hd.
    erewrite copy_resolved; [| reflexivity | exact Hc].
    erewrite delete_rejected; [| exact Hd]. cbn.
    now rewrite <- app_assoc.
  - intros r b1 r' b2 Hc Hd.
    erewrite copy_resolved; [| reflexivity | exact Hc].
    erewrite delete_resolved; [| exact Hd]. cbn.
    now rewrite <- app_assoc.
Qed.

(** On the bucket [media]: moving ["a.txt"] onto the locked
    ["logo.png"] fails in the copy, and the bucket is unchanged; moving
    the locked ["logo.png"] to ["copy.png"] fails in the delete, and the
    bucket then holds both. *)
Lemma move_copy_then_delete_witness :
  move MemS3.client "media" "a.txt" "logo.png" (fresh media)
  = (Err (Translated
            (UnknownException (MemS3.error "AccessDenied" 403)
                              "AccessDenied" "a.txt")),
     {| backend := media;
        calls := [CallCopyObject
                    {| CopyObject.Key := "logo.png";
                       CopyObject.Bucket := "media";
                       CopyObject.CopySource := "/media/a.txt" |}] |}) /\
  exists w',
    move MemS3.client "media" "logo.png" "copy.png" (fresh media)
    = (Err (Translated
              (UnknownException (MemS3.error "AccessDenied" 403)
                                "AccessDenied" "logo.png")), w') /\
    MemS3.lookup "logo.png" (MemS3.objects (backend w'))
      = Some (list_byte_of_string "PNG") /\
    MemS3.lookup "copy.png" (MemS3.objects (backend w'))
      = Some (list_byte_of_string "PNG") /\
    calls w'
    = [CallCopyObject
         {| CopyObject.Key := "copy.png"; CopyObject.Bucket := "media";
            CopyObject.CopySource := "/media/logo.png" |};
       CallDeleteObject {| Key := "logo.png"; Bucket := "media" |}].
Proof.
  split.
  - exact (proj1 (proj2 (move_copy_then_delete
             MemS3.client "media" "a.txt" "logo.png" (fresh media)))
             (MemS3.error "AccessDenied" 403) media eq_refl).
  - eexists. split; [|repeat split].
    exact (proj1 (proj2 (proj2 (move_copy_then_delete
             MemS3.client "media" "logo.png" "copy.png" (fresh media))))
             _ _ (MemS3.error "AccessDenied" 403) _ eq_refl eq_refl).
    all: reflexivity.
Defined.

(** ** flatList *)

Lemma entry_injective : forall f g, entry f = entry g -> f = g.
Proof. intros f g [= H _]. exact H. Qed.

Lemma NoDup_entries objs : NoDup objs -> NoDup (map entry objs).
Proof.
  induction 1 as [|f l Hin _ IH]; cbn; constructor; [|exact IH].
  intros H. apply in_map_iff in H as (g & Hg & Hin').
  apply entry_injective in Hg. now subst.
Qed.

Section FlatList.
Context {W : Type} (d : S3 W) (bucket prefix : string).

Lemma fetchPage_resolved token (w : World W) page next b :
  listObjectsV2 d
    {| ListObjectsV2.Bucket := bucket; ListObjectsV2.Prefix := prefix;
       ListObjectsV2.ContinuationToken := token;
       ListObjectsV2.MaxKeys := 1000 |} (backend w)
  = (Resolved {| ListObjectsV2.Contents := page;
                 ListObjectsV2.NextContinuationToken := next |}, b) ->
  fetchPage d bucket prefix token w
  = (match page with
     | Some files => Ok (next, files)
     | None => Err (TypeError "response.Contents is not iterable")
     end,
     {| backend := b;
        calls := calls w ++
          [CallListObjectsV2
             {| ListObjectsV2.Bucket := bucket; ListObjectsV2.Prefix := prefix;
                ListObjectsV2.ContinuationToken := token;
                ListObjectsV2.MaxKeys := 1000 |}] |}).
Proof. intros H. run. rewrite H. cbn. now destruct page. Qed.

Lemma fetchPage_rejected token (w : World W) e b :
  listObjectsV2 d
    {| ListObjectsV2.Bucket := bucket; ListObjectsV2.Prefix := prefix;
       ListObjectsV2.ContinuationToken := token;
       ListObjectsV2.MaxKeys := 1000 |} (backend w)
  = (Rejected e, b) ->
  fetchPage d bucket prefix token w
  = (Err e,
     {| backend := b;
        calls := calls w ++
          [CallListObjectsV2
             {| ListObjectsV2.Bucket := bucket; ListObjectsV2.Prefix := prefix;
                ListObjectsV2.ContinuationToken := token;
                ListObjectsV2.MaxKeys := 1000 |}] |}).
Proof. intros H. run. rewrite H. reflexivity. Qed.

(** Over a backend that serves [objs] from [token] on, the loop ends
    after as many page requests as the backend had pages, having yielded
    one entry per object, in order. *)
Lemma flatList_from_serves token b objs b' :
  serves d bucket prefix token b objs b' ->
  exists pages requests,
    length requests = pages /\
    Forall (isPageRequest bucket prefix) requests /\
    forall fuel log, (pages <= fuel)%nat ->
      flatList_from d bucket fuel prefix token {| backend := b; calls := log |}
      = ({| yielded := map entry objs; finish := Completed |},
         {| backend := b'; calls := log ++ requests |}).
Proof.
  induction 1 as [token b page b' H | token b page next b1 rest b' H Hne _ IH].
  - exists 1%nat. eexists [_]. split; [reflexivity|]. split.
    { constructor; [|constructor]. now exists token. }
    intros [|fuel] log Hf; [lia|]. cbn [flatList_from].
    erewrite fetchPage_resolved; [|exact H]. reflexivity.
  - destruct IH as (pages & requests & Hlen & Hall & IH).
    exists (S pages). eexists (_ :: requests). split; [cbn; now rewrite Hlen|].
    split. { constructor; [now exists token | exact Hall]. }
    intros [|fuel] log Hf; [lia|]. cbn [flatList_from].
    erewrite fetchPage_resolved; [|exact H]. cbn.
    apply String.eqb_neq in Hne. rewrite Hne. cbn.
    rewrite IH by lia. cbn. rewrite map_app, <- app_assoc. reflexivity.
Qed.

End FlatList.

(** The in-memory bucket is such a backend: it serves the objects under
    a prefix, in its listing order, from any offset. *)
Lemma MemS3_offsetOf_tokenOf n :
  MemS3.offsetOf (Some (MemS3.tokenOf n)) = Some n.
Proof.
  unfold MemS3.offsetOf, MemS3.tokenOf, MemS3.decimal.
  rewrite NilEmpty.usu. cbn. now rewrite Unsigned.of_to.
Qed.

Lemma MemS3_serves_from (st : MemS3.State) (prefix : string) :
  forall m n token,
    (length (skipn n (MemS3.matching prefix st)) <= m)%nat ->
    MemS3.offsetOf token = Some n ->
    serves MemS3.client (MemS3.bucketName st) prefix token st
           (skipn n (MemS3.matching prefix st)) st.
Proof.
  assert (Hk : Z.to_nat 1000 = 1000%nat) by reflexivity.
  assert (Hlist : forall n token, MemS3.offsetOf token = Some n ->
    listObjectsV2 MemS3.client
      {| ListObjectsV2.Bucket := MemS3.bucketName st;
         ListObjectsV2.Prefix := prefix;
         ListObjectsV2.ContinuationToken := token;
         ListObjectsV2.MaxKeys := 1000 |} st
    = (Resolved
         {| ListObjectsV2.Contents :=
              Some (firstn 1000 (skipn n (MemS3.matching prefix st)));
            ListObjectsV2.NextContinuationToken :=
              if (length (skipn n (MemS3.matching prefix st)) <=? 1000)%nat
              then None else Some (MemS3.tokenOf (n + 1000)) |}, st)).
  { intros n token Ho. unfold MemS3.client, listObjectsV2, MemS3.listObjectsV2.
    unfold MemS3.inBucket. cbv [ListObjectsV2.Bucket ListObjectsV2.Prefix
      ListObjectsV2.ContinuationToken ListObjectsV2.MaxKeys].
    rewrite String.eqb_refl, Ho, Hk. reflexivity. }
  induction m as [|m IH]; intros n token Hlen Ho.
  - apply serves_last. rewrite (Hlist n token Ho).
    destruct (skipn n (MemS3.matching prefix st)); [reflexivity|].
    cbn in Hlen. lia.
  - destruct (Nat.leb_spec (length (skipn n (MemS3.matching prefix st))) 1000)
      as [Hle|Hgt].
    + apply serves_last. rewrite (Hlist n token Ho).
      apply Nat.leb_le in Hle. rewrite Hle.
      apply Nat.leb_le in Hle. now rewrite firstn_all2.
    + rewrite <- (firstn_skipn 1000 (skipn n (MemS3.matching prefix st))).
      rewrite skipn_skipn.
      eapply serves_more with (next := MemS3.tokenOf (n + 1000)).
      * rewrite (Hlist n token Ho).
        apply Nat.leb_gt in Hgt. now rewrite Hgt.
      * discriminate.
      * replace (1000 + n)%nat with (n + 1000)%nat by apply Nat.add_comm.
        apply IH; [|apply MemS3_offsetOf_tokenOf].
        rewrite <- (Nat.add_comm 1000), <- skipn_skipn, length_skipn. lia.
Qed.

Lemma MemS3_serves (st : MemS3.State) (prefix : string) :
  serves MemS3.client (MemS3.bucketName st) prefix None st
         (MemS3.matching prefix st) st.
Proof.
  exact (@MemS3_serves_from st prefix
           (length (MemS3.matching prefix st)) 0 None (le_n _) eq_refl).
Qed.

(** X18. Over a backend that hands out the objects [objs] under
    [prefix] in pages, every page with its [Contents] array and every
    page but the last with a non-empty continuation token ([serves]),
    consuming [flatList(prefix)] ends, after one request per page and
    nothing else, having yielded exactly one entry per object, in the
    backend's order, each with the object's key as its path: as many
    entries as objects, none left out, and none twice unless the
    backend listed it twice. *)
Theorem flatList_complete W (d : S3 W) (bucket prefix : string) (w : World W)
    (objs : list ListObjectsV2.Object) (b' : W) :
  serves d bucket prefix None (backend w) objs b' ->
  exists pages requests,
    length requests = pages /\
    Forall (isPageRequest bucket prefix) requests /\
    forall fuel, (pages <= fuel)%nat ->
      let run := flatList d bucket fuel (Some prefix) w in
      finish (fst run) = Completed /\
      yielded (fst run) = map entry objs /\
      length (yielded (fst run)) = length objs /\
      map path (yielded (fst run)) = map ListObjectsV2.Key objs /\
      (NoDup objs -> NoDup (yielded (fst run))) /\
      snd run = {| backend := b'; calls := calls w ++ requests |}.
Proof.
  intros H.
  destruct (flatList_from_serves H) as (pages & requests & Hlen & Hall & Hrun).
  exists pages, requests. split; [exact Hlen|]. split; [exact Hall|].
  intros fuel Hfuel run. subst run. unfold flatList.
  destruct w as [b log]. cbn [backend calls] in *.
  rewrite (Hrun fuel log Hfuel). cbn.
  repeat split.
  - apply length_map.
  - rewrite map_map. reflexivity.
  - apply NoDup_entries.
Qed.

(** The bucket behind the client the driver imports is such a backend
    whenever the listing is not empty: every page it cuts then holds an
    object, and comes with its [Contents]. *)
Lemma SdkV3_serves_from (st : MemS3.State) (prefix : string) :
  forall m n token,
    (length (skipn n (MemS3.matching prefix st)) <= m)%nat ->
    skipn n (MemS3.matching prefix st) <> [] ->
    MemS3.offsetOf token = Some n ->
    serves SdkV3.client (MemS3.bucketName st) prefix token st
           (skipn n (MemS3.matching prefix st)) st.
Proof.
  assert (Hk : Z.to_nat 1000 = 1000%nat) by reflexivity.
  assert (Hlist : forall n token,
    MemS3.offsetOf token = Some n ->
    skipn n (MemS3.matching prefix st) <> [] ->
    listObjectsV2 SdkV3.client
      {| ListObjectsV2.Bucket := MemS3.bucketName st;
         ListObjectsV2.Prefix := prefix;
         ListObjectsV2.ContinuationToken := token;
         ListObjectsV2.MaxKeys := 1000 |} st
    = (Resolved
         {| ListObjectsV2.Contents :=
              Some (firstn 1000 (skipn n (MemS3.matching prefix st)));
            ListObjectsV2.NextContinuationToken :=
              if (length (skipn n (MemS3.matching prefix st)) <=? 1000)%nat
              then None else Some (MemS3.tokenOf (n + 1000)) |}, st)).
  { intros n token Ho Hne.
    unfold SdkV3.client, listObjectsV2, SdkV3.listObjectsV2,
      MemS3.listObjectsV2, MemS3.inBucket.
    cbv [ListObjectsV2.Bucket ListObjectsV2.Prefix
      ListObjectsV2.ContinuationToken ListObjectsV2.MaxKeys].
    rewrite String.eqb_refl, Ho, Hk. unfold SdkV3.listing.
    cbv [ListObjectsV2.Contents ListObjectsV2.NextContinuationToken].
    destruct (skipn n (MemS3.matching prefix st)) as [|x rest];
      [congruence|].
    change 1000%nat with (S 999) at 1 2. rewrite !firstn_cons. reflexivity. }
  induction m as [|m IH]; intros n token Hlen Hne Ho.
  - destruct (skipn n (MemS3.matching prefix st)); [congruence|].
    cbn in Hlen. lia.
  - destruct (Nat.leb_spec (length (skipn n (MemS3.matching prefix st))) 1000)
      as [Hle|Hgt].
    + apply serves_last. rewrite (Hlist n token Ho Hne).
      apply Nat.leb_le in Hle. rewrite Hle.
      apply Nat.leb_le in Hle. now rewrite firstn_all2.
    + rewrite <- (firstn_skipn 1000 (skipn n (MemS3.matching prefix st))).
      rewrite skipn_skipn.
      assert (Hmore : (length (skipn (1000 + n) (MemS3.matching prefix st))
                       = length (skipn n (MemS3.matching prefix st)) - 1000)%nat).
      { now rewrite <- skipn_skipn, length_skipn. }
      eapply serves_more with (next := MemS3.tokenOf (n + 1000)).
      * rewrite (Hlist n token Ho Hne).
        apply Nat.leb_gt in Hgt. now rewrite Hgt.
      * discriminate.
      * replace (1000 + n)%nat with (n + 1000)%nat in * by apply Nat.add_comm.
        apply IH; [lia | | apply MemS3_offsetOf_tokenOf].
        intros Hnil. rewrite Hnil in Hmore. cbn in Hmore. lia.
Qed.

Lemma SdkV3_serves (st : MemS3.State) (prefix : string) :
  MemS3.matching prefix st <> [] ->
  serves SdkV3.client (MemS3.bucketName st) prefix None st
         (MemS3.matching prefix st) st.
Proof.
  intros Hne.
  exact (@SdkV3_serves_from st prefix
           (length (MemS3.matching prefix st)) 0 None (le_n _) Hne eq_refl).
Qed.

(** Buckets of 1 and 2500 objects, through the client the driver
    imports. *)
Lemma flatList_complete_witness :
  (exists pages, forall fuel, (pages <= fuel)%nat ->
     length (yielded (fst (flatList SdkV3.client "logs" fuel (Some "day-")
                                    (fresh (logs 1))))) = 1%nat) /\
  (exists pages, forall fuel, (pages <= fuel)%nat ->
     length (yielded (fst (flatList SdkV3.client "logs" fuel (Some "day-")
                                    (fresh (logs 2500))))) = 2500%nat).
Proof.
  split.
  - destruct (@flatList_complete _ SdkV3.client "logs" "day-"
                (fresh (logs 1)) _ _
                (SdkV3_serves (logs 1) "day-" ltac:(vm_compute; discriminate)))
      as (pages & requests & _ & _ & H).
    exists pages. intros fuel Hf. destruct (H fuel Hf) as (_ & _ & Hl & _).
    rewrite Hl. vm_compute. reflexivity.
  - destruct (@flatList_complete _ SdkV3.client "logs" "day-"
                (fresh (logs 2500)) _ _
                (SdkV3_serves (logs 2500) "day-"
                   ltac:(vm_compute; discriminate)))
      as (pages & requests & _ & _ & H).
    exists pages. intros fuel Hf. destruct (H fuel Hf) as (_ & _ & Hl & _).
    rewrite Hl. vm_compute. reflexivity.
Defined.

(** C2 (the code departs from it).  Through the client the driver
    imports, a listing that matches nothing comes without [Contents].
    [flatList] then cannot iterate its one page: at N = 0 it raises an
    [UnknownException] where the claim has it end with no entry.  At
    N = 1 and N = 2500 it does yield N entries and completes. *)
Theorem flatList_empty_listing_raises :
  flatList SdkV3.client "logs" 3 (Some "day-") (fresh (logs 0))
  = ({| yielded := [];
        finish :=
          Raised (Translated
                    (UnknownException
                       (TypeError "response.Contents is not iterable")
                       "TypeError" "day-")) |},
     {| backend := logs 0;
        calls :=
          [CallListObjectsV2
             {| ListObjectsV2.Bucket := "logs"; ListObjectsV2.Prefix := "day-";
                ListObjectsV2.ContinuationToken := None;
                ListObjectsV2.MaxKeys := 1000 |}] |}) /\
  (let run := fst (flatList SdkV3.client "logs" 3 (Some "day-")
                            (fresh (logs 1))) in
   finish run = Completed /\ length (yielded run) = 1%nat) /\
  (let run := fst (flatList SdkV3.client "logs" 3 (Some "day-")
                            (fresh (logs 2500))) in
   finish run = Completed /\ length (yielded run) = 2500%nat).
Proof. vm_compute. repeat split. Qed.

(** 2500 objects take three page requests; with two the generator is
    still waiting for its third page. *)
Example flatList_2500 :
  let run := flatList MemS3.client "logs" 3 None (fresh (logs 2500)) in
  finish (fst run) = Completed /\
  length (yielded (fst run)) = 2500%nat /\
  map ListObjectsV2.ContinuationToken
      (flat_map (fun c => match c with CallListObjectsV2 r => [r] | _ => [] end)
                (calls (snd run)))
  = [None; Some "#1000"; Some "#2000"] /\
  finish (fst (flatList MemS3.client "logs" 2 None (fresh (logs 2500))))
  = Suspended.
Proof. vm_compute. repeat split. Qed.

(** ** Reads *)

Section Reads.
Context {W : Type} (d : S3 W) (bucket location : string) (w : World W).

Lemma getBuffer_resolved result blob body b :
  getObject d {| Key := location; Bucket := bucket |} (backend w)
    = (Resolved result, b) ->
  GetObject.Body result = Some blob ->
  transformToByteArray blob = Resolved body ->
  getBuffer d bucket location w
  = (Ok {| content := body; ContentResponse_raw := OfGet result |},
     fetched bucket location w b).
Proof. intros H Hb Ht. run. rewrite H. cbn. rewrite Hb, Ht. reflexivity. Qed.

Lemma getBuffer_rejected e b :
  getObject d {| Key := location; Bucket := bucket |} (backend w)
    = (Rejected e, b) ->
  getBuffer d bucket location w
  = (Err (Translated (handleError e location bucket)),
     fetched bucket location w b).
Proof. intros H. run. rewrite H. reflexivity. Qed.

(** [getBuffer] returns only what the backend's read resolved to. *)
Lemma getBuffer_returns resp w' :
  getBuffer d bucket location w = (Ok resp, w') ->
  exists result blob,
    fst (getObject d {| Key := location; Bucket := bucket |} (backend w))
      = Resolved result /\
    GetObject.Body result = Some blob /\
    transformToByteArray blob = Resolved (content resp) /\
    raw resp = OfGet result.
Proof.
  run.
  destruct (getObject d {| Key := location; Bucket := bucket |} (backend w))
    as [[result|e] b]; cbn; [|discriminate].
  destruct (GetObject.Body result) as [blob|] eqn:Hb; cbn; [|discriminate].
  destruct (transformToByteArray blob) as [body|e] eqn:Ht; cbn; [|discriminate].
  intros [= <- _]. exists result, blob. cbn. auto.
Qed.

(** Whatever [getBuffer] raises is an exception of the abstraction. *)
Lemma getBuffer_raises t w' :
  getBuffer d bucket location w = (Err t, w') ->
  exists e, t = Translated (handleError e location bucket).
Proof.
  run.
  destruct (getObject d {| Key := location; Bucket := bucket |} (backend w))
    as [[result|e] b]; cbn.
  - destruct (GetObject.Body result) as [blob|]; cbn.
    + destruct (transformToByteArray blob) as [body|e]; cbn; [discriminate|].
      intros [= <- _]. now exists e.
    + intros [= <- _].
      now exists (TypeError
        "Cannot read properties of undefined (reading 'transformToByteArray')").
  - intros [= <- _]. now exists e.
Qed.

(** [getStream] has no handler: the backend's error goes out as it is. *)
Lemma getStream_rejected e b :
  getObject d {| Key := location; Bucket := bucket |} (backend w)
    = (Rejected e, b) ->
  getStream d bucket location w
  = (Err (Native e), fetched bucket location w b).
Proof. intros H. run. rewrite H. reflexivity. Qed.

Lemma getStream_resolved result b :
  getObject d {| Key := location; Bucket := bucket |} (backend w)
    = (Resolved result, b) ->
  getStream d bucket location w
  = (Ok (GetObject.Body result), fetched bucket location w b).
Proof. intros H. run. rewrite H. reflexivity. Qed.

(** [put] returns at once, for every backend and every outcome of the
    write: the envelope holds the promise, the call has been made, and
    the backend is as it was. *)
Lemma put_returns content :
  let request :=
    {| PutObject.Key := location; PutObject.Body := content;
       PutObject.Bucket := bucket |} in
  put d bucket location content w
  = (Ok {| Response_raw :=
             OfPutPromise (fst (putObject d request (backend w))) |},
     {| backend := backend w;
        calls := calls w ++ [CallPutObject request] |}).
Proof. intros request. reflexivity. Qed.

End Reads.

(** C5 (the code departs from it).  On a key the bucket does not hold,
    [getBuffer] raises the translated [FileNotFoundException], and
    [getStream], which makes the same call, raises the backend's own
    ['NoSuchKey'] error. *)
Theorem getStream_raises_untranslated :
  fst (getBuffer MemS3.client "media" "gone.txt" (fresh media))
  = Err (Translated
           (FileNotFoundException (MemS3.error "NoSuchKey" 404) "gone.txt")) /\
  fst (getStream MemS3.client "media" "gone.txt" (fresh media))
  = Err (Native (MemS3.error "NoSuchKey" 404)).
Proof. split; reflexivity. Qed.

(** C6 (the code departs from it).  A write to a locked key is rejected
    by the backend with a 403; [put] returns all the same, with the
    rejected promise in [raw], and raises nothing. *)
Theorem put_drops_rejection :
  fst (put MemS3.client "media" "logo.png" (ContentString "new") (fresh media))
  = Ok {| Response_raw :=
            OfPutPromise (Rejected (MemS3.error "AccessDenied" 403)) |}.
Proof. reflexivity. Qed.

(** [get] is [getBuffer] followed by [toString]: the bytes read are
    decoded with the encoding asked for, or ['utf-8'], the [raw] of
    [getBuffer] is passed on, and what [getBuffer] raises [get] raises.
    On a string that names no encoding [toString] throws. *)
Lemma get_run W (d : S3 W) (bucket : string)
    (toString : Buffer -> BufferEncoding -> string)
    (location : string) (encoding : option BufferEncoding) (w : World W) :
  get d bucket toString location encoding w
  = match getBuffer d bucket location w with
    | (Ok r, w') =>
      (match (match encoding with Some e => e | None => utf_8 end) with
       | other label =>
         Err (Native (TypeError ("Unknown encoding: " ++ label)))
       | e =>
         Ok {| content := toString (content r) e;
               ContentResponse_raw := raw r |}
       end, w')
    | (Err t, w') => (Err t, w')
    end.
Proof.
  unfold get, bind, ret, throw.
  destruct (getBuffer d bucket location w) as [[r|t] w']; [|reflexivity].
  destruct encoding as [[]|]; reflexivity.
Qed.

(** C7 (the code departs from it).  [get] does decode what [getBuffer]
    reads ([get_run]), but a [put] followed by a [get] is not a round
    trip: [put] returns while its write is still on its way (the
    missing [await] of C6), so in the world [put] returns the bucket
    does not hold the object yet and [get] raises
    [FileNotFoundException].  Only once the write has reached the
    backend does [get] return the text. *)
Theorem put_then_get_unordered :
  let bytes := ContentBuffer (MemS3.fromString "hello" latin1) in
  let returned :=
    put SdkV3.client "media" "note.txt" bytes (fresh media) in
  fst returned
  = Ok {| Response_raw :=
            OfPutPromise (Resolved {| PutObject.ETag := None |}) |} /\
  backend (snd returned) = media /\
  fst (get SdkV3.client "media" MemS3.toString "note.txt" (Some latin1)
           (snd returned))
  = Err (Translated
           (FileNotFoundException (mkError "NoSuchKey" "NoSuchKey" None)
                                  "note.txt")) /\
  exists r w',
    get SdkV3.client "media" MemS3.toString "note.txt" (Some latin1)
        (landed SdkV3.client "media" "note.txt" bytes (snd returned))
    = (Ok r, w') /\
    content r = "hello".
Proof.
  cbv zeta. repeat split. do 2 eexists. split; reflexivity.
Qed.

(** ** The [raw] of the envelopes *)

Section Raw.
Context {W : Type} (d : S3 W) (bucket : string) (w : World W).

Lemma copy_returns src dest resp w' :
  copy d bucket src dest w = (Ok resp, w') ->
  exists result,
    fst (copyObject d
           {| CopyObject.Key := dest; CopyObject.Bucket := bucket;
              CopyObject.CopySource := "/" ++ bucket ++ "/" ++ src |}
           (backend w)) = Resolved result /\
    raw resp = OfCopy result.
Proof.
  destruct (copyObject d
           {| CopyObject.Key := dest; CopyObject.Bucket := bucket;
              CopyObject.CopySource := "/" ++ bucket ++ "/" ++ src |}
           (backend w)) as [[result|e] b] eqn:H.
  - erewrite copy_resolved; [| reflexivity | exact H].
    intros [= <- _]. now exists result.
  - erewrite copy_rejected; [| reflexivity | exact H]. discriminate.
Qed.

Lemma exists_at_returns location resp w' :
  exists_at d bucket location w = (Ok resp, w') ->
  (exists result,
     fst (headObject d {| Key := location; Bucket := bucket |} (backend w))
       = Resolved result /\
     exists_ resp = true /\ raw resp = OfHead result) \/
  (exists e,
     fst (headObject d {| Key := location; Bucket := bucket |} (backend w))
       = Rejected e /\
     exists_ resp = false /\ raw resp = OfError e).
Proof.
  destruct (headObject d {| Key := location; Bucket := bucket |} (backend w))
    as [[result|e] b] eqn:H.
  - rewrite (exists_at_present _ _ _ _ H). intros [= <- _].
    left. now exists result.
  - assert ({statusCode e = Some 404%Z} + {statusCode e <> Some 404%Z})
      as [Hs|Hs] by repeat decide equality.
    + rewrite (exists_at_absent _ _ _ _ H Hs). intros [= <- _].
      right. now exists e.
    + rewrite (exists_at_failed _ _ _ _ H Hs). discriminate.
Qed.

Lemma getStat_returns location resp w' :
  getStat d bucket location w = (Ok resp, w') ->
  exists result,
    fst (headObject d {| Key := location; Bucket := bucket |} (backend w))
      = Resolved result /\
    size resp = HeadObject.ContentLength result /\
    modified resp = HeadObject.LastModified result /\
    raw resp = OfHead result.
Proof.
  run.
  destruct (headObject d {| Key := location; Bucket := bucket |} (backend w))
    as [[result|e] b]; cbn; [|discriminate].
  intros [= <- _]. now exists result.
Qed.

Lemma getSignedUrl_returns location options resp w' :
  getSignedUrl d bucket location options w = (Ok resp, w') ->
  exists params o url,
    fst (getSignedUrl_ d params o (backend w)) = Resolved url /\
    Presign.Key params = location /\
    Presign.Bucket params = bucket /\
    signedUrl resp = url /\
    raw resp = OfString url.
Proof.
  destruct options as [[|o]|]; run; try discriminate.
  all: match goal with
  | |- context [getSignedUrl_ d ?p ?o (backend w)] =>
    destruct (getSignedUrl_ d p o (backend w)) as [[url|e] b] eqn:H;
      cbn; [|discriminate];
      intros [= <- _]; exists p, o, url; rewrite H; cbn; auto
  end.
Qed.

Lemma get_returns toString location encoding resp w' :
  get d bucket toString location encoding w = (Ok resp, w') ->
  exists result,
    fst (getObject d {| Key := location; Bucket := bucket |} (backend w))
      = Resolved result /\
    raw resp = OfGet result.
Proof.
  rewrite get_run.
  destruct (getBuffer d bucket location w) as [[r|t] w1] eqn:H; [|discriminate].
  apply getBuffer_returns in H as (result & blob & Hg & _ & _ & Hr).
  destruct encoding as [[]|]; try discriminate;
    intros [= <- _]; exists result; (split; [exact Hg|exact Hr]).
Qed.

Lemma move_returns src dest resp w' :
  move d bucket src dest w = (Ok resp, w') ->
  raw resp = undefined.
Proof.
  unfold move, bind, ret.
  destruct (copy d bucket src dest w) as [[? | ?] w1]; [|discriminate].
  destruct (delete d bucket src w1) as [[? | ?] w2]; [|discriminate].
  now intros [= <- _].
Qed.

End Raw.

(** C8, as the claim states it, fails on [move]: a [move] that succeeds
    has made two calls on the backend and returns neither result. *)
Lemma move_raw_not_backend_result :
  exists resp w',
    move MemS3.client "media" "a.txt" "b.txt" (fresh media) = (Ok resp, w') /\
    calls w'
    = [CallCopyObject {| CopyObject.Key := "b.txt"; CopyObject.Bucket := "media";
                         CopyObject.CopySource := "/media/a.txt" |};
       CallDeleteObject {| Key := "a.txt"; Bucket := "media" |}] /\
    raw resp = undefined /\
    backendNative (raw resp) = false.
Proof. do 2 eexists. split; [reflexivity|]. repeat split. Qed.

(** C8, amended.  The envelope of a successful [copy], [delete], [get],
    [getBuffer], [getStat] or [getSignedUrl] carries in [raw] what the
    backend resolved that call to; the envelope of [exists] carries the
    result of the probe, or its error when the object is absent; every
    entry of [flatList] carries the listed object; and the envelope of
    [move] carries [undefined]. *)
Theorem envelope_raw W (d : S3 W) (bucket : string)
    (toString : Buffer -> BufferEncoding -> string) (w : World W) :
  (forall src dest resp w',
     copy d bucket src dest w = (Ok resp, w') ->
     exists result,
       fst (copyObject d
              {| CopyObject.Key := dest; CopyObject.Bucket := bucket;
                 CopyObject.CopySource := "/" ++ bucket ++ "/" ++ src |}
              (backend w)) = Resolved result /\
       raw resp = OfCopy result) /\
  (forall location resp w',
     delete d bucket location w = (Ok resp, w') ->
     exists result,
       fst (deleteObject d {| Key := location; Bucket := bucket |} (backend w))
         = Resolved result /\
       raw resp = OfDelete result) /\
  (forall location resp w',
     exists_at d bucket location w = (Ok resp, w') ->
     (exists result,
        fst (headObject d {| Key := location; Bucket := bucket |} (backend w))
          = Resolved result /\
        exists_ resp = true /\ raw resp = OfHead result) \/
     (exists e,
        fst (headObject d {| Key := location; Bucket := bucket |} (backend w))
          = Rejected e /\
        exists_ resp = false /\ raw resp = OfError e)) /\
  (forall location encoding resp w',
     get d bucket toString location encoding w = (Ok resp, w') ->
     exists result,
       fst (getObject d {| Key := location; Bucket := bucket |} (backend w))
         = Resolved result /\
       raw resp = OfGet result) /\
  (forall location resp w',
     getBuffer d bucket location w = (Ok resp, w') ->
     exists result,
       fst (getObject d {| Key := location; Bucket := bucket |} (backend w))
         = Resolved result /\
       raw resp = OfGet result) /\
  (forall location resp w',
     getStat d bucket location w = (Ok resp, w') ->
     exists result,
       fst (headObject d {| Key := location; Bucket := bucket |} (backend w))
         = Resolved result /\
       raw resp = OfHead result) /\
  (forall location options resp w',
     getSignedUrl d bucket location options w = (Ok resp, w') ->
     exists params o url,
       fst (getSignedUrl_ d params o (backend w)) = Resolved url /\
       Presign.Key params = location /\
       raw resp = OfString url) /\
  (forall prefix objs b',
     serves d bucket prefix None (backend w) objs b' ->
     exists pages, forall fuel, (pages <= fuel)%nat ->
       map raw (yielded (fst (flatList d bucket fuel (Some prefix) w)))
       = map OfListed objs) /\
  (forall src dest resp w',
     move d bucket src dest w = (Ok resp, w') ->
     raw resp = undefined).
Proof.
  repeat apply conj.
  - intros src dest resp w'. apply copy_returns.
  - intros location resp w' H.
    apply delete_returns in H as (result & Hd & ->). now exists result.
  - intros location resp w'. apply exists_at_returns.
  - intros location encoding resp w'. apply get_returns.
  - intros location resp w' H.
    apply getBuffer_returns in H as (result & blob & Hg & _ & _ & Hr).
    now exists result.
  - intros location resp w' H.
    apply getStat_returns in H as (result & Hh & _ & _ & Hr). now exists result.
  - intros location options resp w' H.
    apply getSignedUrl_returns in H as (p & o & url & Hs & Hk & _ & _ & Hr).
    now exists p, o, url.
  - intros prefix objs b' H.
    destruct (flatList_from_serves H) as (pages & requests & _ & _ & Hrun).
    exists pages. intros fuel Hfuel. unfold flatList.
    destruct w as [b log]. cbn [backend] in *.
    rewrite (Hrun fuel log Hfuel). cbn. now rewrite map_map.
  - intros src dest resp w'. apply move_returns.
Qed.

(** On the bucket [media]: the [raw] of a [copy], and of a [move]. *)
Lemma envelope_raw_witness :
  (exists result,
     fst (copyObject MemS3.client
            {| CopyObject.Key := "b.txt"; CopyObject.Bucket := "media";
               CopyObject.CopySource := "/media/a.txt" |} media)
       = Resolved result /\
     raw {| Response_raw := OfCopy {| CopyObject.ETag := None |} |}
       = OfCopy result) /\
  raw (match fst (move MemS3.client "media" "a.txt" "b.txt" (fresh media)) with
       | Ok resp => resp
       | Err _ => {| Response_raw := OfString "raised" |}
       end) = undefined.
Proof.
  pose proof (envelope_raw MemS3.client "media" MemS3.toString (fresh media))
    as (Hcopy & _ & _ & _ & _ & _ & _ & _ & Hmove).
  split.
  - exact (Hcopy "a.txt" "b.txt" _ _ eq_refl).
  - exact (Hmove "a.txt" "b.txt" _ _ eq_refl).
Defined.

(** ** Where errors are translated *)

Section Raises.
Context {W : Type} (d : S3 W) (bucket : string).

(** A listing that fails does so with a translated error, whatever was
    yielded before. *)
Lemma flatList_from_raises prefix t :
  forall fuel token (w : World W),
    finish (fst (flatList_from d bucket fuel prefix token w)) = Raised t ->
    exists e, t = Translated (handleError e prefix bucket).
Proof.
  induction fuel as [|fuel IH]; intros token w; cbn [flatList_from].
  - discriminate.
  - destruct (fetchPage d bucket prefix token w) as [[[next files]|e] w1].
    + destruct (truthy next); [|discriminate].
      specialize (IH next w1).
      destruct (flatList_from d bucket fuel prefix next w1) as [rest w2].
      exact IH.
    + cbn. intros [= <-]. now exists e.
Qed.

(** A page whose [Contents] is [undefined] cannot be iterated: the
    [TypeError] is caught by the loop's handler and raised as an
    [UnknownException]. *)
Lemma flatList_undefined_contents prefix (w : World W) next b fuel :
  listObjectsV2 d
    {| ListObjectsV2.Bucket := bucket; ListObjectsV2.Prefix := prefix;
       ListObjectsV2.ContinuationToken := None;
       ListObjectsV2.MaxKeys := 1000 |} (backend w)
  = (Resolved {| ListObjectsV2.Contents := None;
                 ListObjectsV2.NextContinuationToken := next |}, b) ->
  fst (flatList d bucket (S fuel) (Some prefix) w)
  = {| yielded := [];
       finish := Raised (Translated
                   (UnknownException
                      (TypeError "response.Contents is not iterable")
                      "TypeError" prefix)) |}.
Proof.
  intros H. unfold flatList. cbn [flatList_from].
  erewrite fetchPage_resolved; [|exact H]. reflexivity.
Qed.

Lemma copy_raises src dest (w : World W) t w' :
  copy d bucket src dest w = (Err t, w') ->
  exists e, t = Translated (handleError e src bucket).
Proof.
  run.
  match goal with |- context [copyObject d ?r (backend w)] =>
    destruct (copyObject d r (backend w)) as [[?|e] ?] end; cbn;
    [discriminate | intros [= <- _]; eauto].
Qed.

Lemma delete_raises location (w : World W) t w' :
  delete d bucket location w = (Err t, w') ->
  exists e, t = Translated (handleError e location bucket).
Proof.
  run.
  match goal with |- context [deleteObject d ?r (backend w)] =>
    destruct (deleteObject d r (backend w)) as [[?|e] ?] end; cbn;
    [discriminate | intros [= <- _]; eauto].
Qed.

(** X1. What the methods raise.  [copy], [delete], [exists],
    [getBuffer], [getStat], [move] and a consumed [flatList] raise only
    exceptions of the abstraction.  So does [get], but on a string that
    names no encoding, where the [TypeError] of [toString] goes out as
    it is; and so does [getSignedUrl], but on [null] for options, where
    the [TypeError] of the destructuring goes out as it is, before any
    call.  [put] raises nothing. *)
Theorem raises_translated toString (w : World W) :
  (forall src dest t w',
     copy d bucket src dest w = (Err t, w') -> exists x, t = Translated x) /\
  (forall location t w',
     delete d bucket location w = (Err t, w') -> exists x, t = Translated x) /\
  (forall location t w',
     exists_at d bucket location w = (Err t, w') -> exists x, t = Translated x) /\
  (forall location t w',
     getBuffer d bucket location w = (Err t, w') -> exists x, t = Translated x) /\
  (forall location encoding t w',
     get d bucket toString location encoding w = (Err t, w') ->
     (exists x, t = Translated x) \/
     (exists label,
        encoding = Some (other label) /\
        t = Native (TypeError ("Unknown encoding: " ++ label)))) /\
  (forall location t w',
     getStat d bucket location w = (Err t, w') -> exists x, t = Translated x) /\
  (forall location options t w',
     getSignedUrl d bucket location options w = (Err t, w') ->
     (exists x, t = Translated x) \/
     (options = Some null /\ w' = w /\
      t = Native (TypeError
        "Cannot destructure property 'expiresIn' of 'options' as it is null."))) /\
  (forall location,
     getSignedUrl d bucket location (Some null) w
     = (Err (Native (TypeError
          "Cannot destructure property 'expiresIn' of 'options' as it is null.")),
        w)) /\
  (forall src dest t w',
     move d bucket src dest w = (Err t, w') -> exists x, t = Translated x) /\
  (forall fuel prefix t,
     finish (fst (flatList d bucket fuel prefix w)) = Raised t ->
     exists x, t = Translated x) /\
  (forall location content t w',
     put d bucket location content w <> (Err t, w')).
Proof.
  repeat apply conj.
  - intros src dest t w' H. apply copy_raises in H as (e & ->). eauto.
  - intros location t w' H. apply delete_raises in H as (e & ->). eauto.
  - intros location t w'.
    destruct (headObject d {| Key := location; Bucket := bucket |} (backend w))
      as [[result|e] b] eqn:H.
    + rewrite (exists_at_present _ _ _ _ H). discriminate.
    + assert ({statusCode e = Some 404%Z} + {statusCode e <> Some 404%Z})
        as [Hs|Hs] by repeat decide equality.
      * rewrite (exists_at_absent _ _ _ _ H Hs). discriminate.
      * rewrite (exists_at_failed _ _ _ _ H Hs). intros [= <- _]. eauto.
  - intros location t w' H. apply getBuffer_raises in H as (e & ->). eauto.
  - intros location encoding t w'. rewrite get_run.
    destruct (getBuffer d bucket location w) as [[r|t'] w1] eqn:H.
    + destruct encoding as [[]|]; try discriminate.
      intros [= <- _]. right. eauto.
    + intros [= <- _]. apply getBuffer_raises in H as (e & ->). eauto.
  - intros location t w'. run.
    match goal with |- context [headObject d ?r (backend w)] =>
      destruct (headObject d r (backend w)) as [[?|e] ?] end; cbn;
      [discriminate | intros [= <- _]; eauto].
  - intros location [[|o]|] t w'; run.
    + intros [= <- <-]. right. auto.
    + match goal with |- context [getSignedUrl_ d ?r ?o (backend w)] =>
        destruct (getSignedUrl_ d r o (backend w)) as [[?|e] ?] end; cbn;
        [discriminate | intros [= <- _]; eauto].
    + match goal with |- context [getSignedUrl_ d ?r ?o (backend w)] =>
        destruct (getSignedUrl_ d r o (backend w)) as [[?|e] ?] end; cbn;
        [discriminate | intros [= <- _]; eauto].
  - reflexivity.
  - intros src dest t w'. unfold move, bind, ret.
    destruct (copy d bucket src dest w) as [[r|t1] w1] eqn:Hc.
    + destruct (delete d bucket src w1) as [[r'|t2] w2] eqn:Hd; [discriminate|].
      intros [= <- _]. apply delete_raises in Hd as (e & ->). eauto.
    + intros [= <- _]. apply copy_raises in Hc as (e & ->). eauto.
  - intros fuel prefix t H. unfold flatList in H.
    apply flatList_from_raises in H as (e & ->). eauto.
  - intros location content t w'. rewrite put_returns. discriminate.
Qed.

(** X2. With no options, [getSignedUrl] asks the presigner, and
    nothing else, for a URL on [location] expiring after 900 seconds;
    the URL is both the [signedUrl] and the [raw] of the response. *)
Theorem getSignedUrl_default location (w : World W) :
  let params :=
    {| Presign.Key := location; Presign.Bucket := bucket;
       Presign.Expires := 900 |} in
  let options := {| expiresIn := None |} in
  getSignedUrl d bucket location None w
  = (match fst (getSignedUrl_ d params options (backend w)) with
     | Resolved url =>
       Ok {| signedUrl := url; SignedUrlResponse_raw := OfString url |}
     | Rejected e => Err (Translated (handleError e location bucket))
     end,
     {| backend := snd (getSignedUrl_ d params options (backend w));
        calls := calls w ++ [CallGetSignedUrl params options] |}).
Proof.
  intros params options. run. fold params options.
  now destruct (getSignedUrl_ d params options (backend w)) as [[url|e] b].
Qed.

End Raises.

(* ================================================================== *)
(** * Further properties *)

(** ** The calls a method makes *)

Lemma status_404_dec (e : Error) :
  {statusCode e = Some 404%Z} + {statusCode e <> Some 404%Z}.
Proof. repeat decide equality. Qed.

Lemma exists_at_world W (d : S3 W) (bucket location : string) (w : World W) :
  snd (exists_at d bucket location w)
  = probed bucket location w
      (snd (headObject d {| Key := location; Bucket := bucket |} (backend w))).
Proof.
  destruct (headObject d {| Key := location; Bucket := bucket |} (backend w))
    as [[result|e] b] eqn:H.
  - now rewrite (exists_at_present _ _ _ _ H).
  - destruct (status_404_dec e) as [Hs|Hs].
    + now rewrite (exists_at_absent _ _ _ _ H Hs).
    + now rewrite (exists_at_failed _ _ _ _ H Hs).
Qed.

Lemma getStat_run W (d : S3 W) (bucket location : string) (w : World W) :
  getStat d bucket location w
  = (match fst (headObject d {| Key := location; Bucket := bucket |}
                           (backend w)) with
     | Resolved result =>
       Ok {| size := HeadObject.ContentLength result;
             modified := HeadObject.LastModified result;
             StatResponse_raw := OfHead result |}
     | Rejected e => Err (Translated (handleError e location bucket))
     end,
     probed bucket location w
       (snd (headObject d {| Key := location; Bucket := bucket |} (backend w)))).
Proof.
  run.
  now destruct (headObject d {| Key := location; Bucket := bucket |} (backend w))
    as [[result|e] b].
Qed.

(** X3. The methods that await their call, [copy], [delete], [exists],
    [getStat], [getBuffer], [get] and [getStream], make exactly one
    call on the client, whether it resolves or is rejected, and leave
    the backend as that call left it: no retry and no second request.
    [put] makes its one call too, the write, but does not wait for it:
    when it returns the backend is as it was.  [getSignedUrl] makes
    one call, a signature with [expiresIn] or else 900 as [Expires],
    unless its options are [null]: then it makes none.  [move] makes
    the copy, and the delete only when the copy resolved. *)
Theorem one_call_each W (d : S3 W) (bucket : string)
    (toString : Buffer -> BufferEncoding -> string) (w : World W) :
  (forall src dest,
     let request :=
       {| CopyObject.Key := dest; CopyObject.Bucket := bucket;
          CopyObject.CopySource := "/" ++ bucket ++ "/" ++ src |} in
     snd (copy d bucket src dest w)
     = {| backend := snd (copyObject d request (backend w));
          calls := calls w ++ [CallCopyObject request] |}) /\
  (forall location,
     let params := {| Key := location; Bucket := bucket |} in
     snd (delete d bucket location w)
     = {| backend := snd (deleteObject d params (backend w));
          calls := calls w ++ [CallDeleteObject params] |}) /\
  (forall location,
     let params := {| Key := location; Bucket := bucket |} in
     let after :=
       {| backend := snd (headObject d params (backend w));
          calls := calls w ++ [CallHeadObject params] |} in
     snd (exists_at d bucket location w) = after /\
     snd (getStat d bucket location w) = after) /\
  (forall location encoding,
     let params := {| Key := location; Bucket := bucket |} in
     let after :=
       {| backend := snd (getObject d params (backend w));
          calls := calls w ++ [CallGetObject params] |} in
     snd (getBuffer d bucket location w) = after /\
     snd (get d bucket toString location encoding w) = after /\
     snd (getStream d bucket location w) = after) /\
  (forall location content,
     let request :=
       {| PutObject.Key := location; PutObject.Body := content;
          PutObject.Bucket := bucket |} in
     snd (put d bucket location content w)
     = {| backend := backend w;
          calls := calls w ++ [CallPutObject request] |}) /\
  (forall location (options : option SignedUrlOptions),
     let o := match options with Some o => o | None => {| expiresIn := None |} end in
     let params :=
       {| Presign.Key := location; Presign.Bucket := bucket;
          Presign.Expires :=
            match expiresIn o with Some n => n | None => 900%Z end |} in
     snd (getSignedUrl d bucket location (option_map (@notNull _) options) w)
     = {| backend := snd (getSignedUrl_ d params o (backend w));
          calls := calls w ++ [CallGetSignedUrl params o] |}) /\
  (forall location,
     snd (getSignedUrl d bucket location (Some null) w) = w) /\
  (forall src dest,
     let request :=
       {| CopyObject.Key := dest; CopyObject.Bucket := bucket;
          CopyObject.CopySource := "/" ++ bucket ++ "/" ++ src |} in
     let params := {| Key := src; Bucket := bucket |} in
     snd (move d bucket src dest w)
     = match copyObject d request (backend w) with
       | (Resolved _, b1) =>
         {| backend := snd (deleteObject d params b1);
            calls := calls w ++ [CallCopyObject request; CallDeleteObject params] |}
       | (Rejected _, b1) =>
         {| backend := b1; calls := calls w ++ [CallCopyObject request] |}
       end).
Proof.
  assert (Hcopy : forall src dest,
     snd (copy d bucket src dest w)
     = {| backend := snd (copyObject d
            {| CopyObject.Key := dest; CopyObject.Bucket := bucket;
               CopyObject.CopySource := "/" ++ bucket ++ "/" ++ src |}
            (backend w));
          calls := calls w ++ [CallCopyObject
            {| CopyObject.Key := dest; CopyObject.Bucket := bucket;
               CopyObject.CopySource := "/" ++ bucket ++ "/" ++ src |}] |}).
  { intros src dest.
    destruct (copyObject d
            {| CopyObject.Key := dest; CopyObject.Bucket := bucket;
               CopyObject.CopySource := "/" ++ bucket ++ "/" ++ src |}
            (backend w)) as [[r|e] b] eqn:H.
    - erewrite copy_resolved; [reflexivity | reflexivity | exact H].
    - erewrite copy_rejected; [reflexivity | reflexivity | exact H]. }
  assert (Hget : forall location,
     snd (getBuffer d bucket location w)
     = {| backend := snd (getObject d {| Key := location; Bucket := bucket |}
                                    (backend w));
          calls := calls w
            ++ [CallGetObject {| Key := location; Bucket := bucket |}] |}).
  { intros location. run.
    destruct (getObject d {| Key := location; Bucket := bucket |} (backend w))
      as [[r|e] b]; cbn; [|reflexivity].
    destruct (GetObject.Body r) as [blob|]; cbn; [|reflexivity].
    now destruct (transformToByteArray blob). }
  repeat apply conj.
  - exact Hcopy.
  - intros location params.
    destruct (deleteObject d params (backend w)) as [[r|e] b] eqn:H.
    + now rewrite (delete_resolved _ _ _ _ H).
    + now rewrite (delete_rejected _ _ _ _ H).
  - intros location params after. split.
    + apply exists_at_world.
    + now rewrite getStat_run.
  - intros location encoding params after. repeat split.
    + apply Hget.
    + rewrite get_run. specialize (Hget location).
      destruct (getBuffer d bucket location w) as [[r|t] w1]; [|exact Hget].
      destruct encoding as [[]|]; exact Hget.
    + subst after params.
      destruct (getObject d {| Key := location; Bucket := bucket |} (backend w))
        as [[r|e] b] eqn:H.
      * now rewrite (getStream_resolved _ _ _ _ H).
      * now rewrite (getStream_rejected _ _ _ _ H).
  - intros location content request. now rewrite put_returns.
  - intros location [o'|] o params; subst o params; run;
      match goal with |- context [getSignedUrl_ d ?p ?o (backend w)] =>
        now destruct (getSignedUrl_ d p o (backend w)) as [[url|e] b]
      end.
  - reflexivity.
  - intros src dest request params. unfold move, bind, ret.
    destruct (copyObject d request (backend w)) as [[r|e] b1] eqn:H.
    + erewrite copy_resolved; [| reflexivity | exact H].
      destruct (deleteObject d params b1) as [[r'|e'] b2] eqn:H'.
      * erewrite delete_resolved; [| exact H']. cbn. now rewrite <- app_assoc.
      * erewrite delete_rejected; [| exact H']. cbn. now rewrite <- app_assoc.
    + erewrite copy_rejected; [reflexivity | reflexivity | exact H].
Qed.

(** ** Methods that share a call *)

(** X4. [exists] and [getStat] make the same probe and leave the same
    world.  [exists] answers [true] exactly when [getStat] returns, and
    then both carry the same [raw]; when [exists] answers [false],
    [getStat] raises the translation of the 404 that [exists] put in
    [raw]; and when [exists] raises, [getStat] raises the same
    exception. *)
Theorem exists_agrees_with_getStat W (d : S3 W) (bucket location : string)
    (w : World W) :
  snd (exists_at d bucket location w) = snd (getStat d bucket location w) /\
  match fst (exists_at d bucket location w),
        fst (getStat d bucket location w) with
  | Ok r, Ok s => exists_ r = true /\ raw r = raw s
  | Ok r, Err t =>
    exists_ r = false /\
    exists e, raw r = OfError e /\ statusCode e = Some 404%Z /\
              t = Translated (handleError e location bucket)
  | Err t, Err t' => t = t'
  | Err _, Ok _ => False
  end.
Proof.
  split.
  - now rewrite exists_at_world, getStat_run.
  - rewrite getStat_run. cbn [fst].
    destruct (headObject d {| Key := location; Bucket := bucket |} (backend w))
      as [[result|e] b] eqn:H.
    + rewrite (exists_at_present _ _ _ _ H). cbn. auto.
    + destruct (status_404_dec e) as [Hs|Hs].
      * rewrite (exists_at_absent _ _ _ _ H Hs). cbn. split; [reflexivity|].
        exists e. auto.
      * rewrite (exists_at_failed _ _ _ _ H Hs). reflexivity.
Qed.

(** X5. [getStream] and [getBuffer] make the same read and leave the
    same world, but [getStream] hands over the body without touching
    it.  Whenever [getBuffer] returns, [getStream] returns a stream
    that reads to the same bytes.  Whenever the read resolves,
    [getStream] returns its [Body], also when the body is missing or
    cannot be read to its end, the two cases in which [getBuffer]
    raises. *)
Theorem getStream_vs_getBuffer W (d : S3 W) (bucket location : string)
    (w : World W) :
  snd (getStream d bucket location w) = snd (getBuffer d bucket location w) /\
  (forall r w',
     getBuffer d bucket location w = (Ok r, w') ->
     exists blob,
       getStream d bucket location w = (Ok (Some blob), w') /\
       transformToByteArray blob = Resolved (content r)) /\
  (forall result b,
     getObject d {| Key := location; Bucket := bucket |} (backend w)
       = (Resolved result, b) ->
     fst (getStream d bucket location w) = Ok (GetObject.Body result) /\
     (GetObject.Body result = None ->
      fst (getBuffer d bucket location w)
      = Err (Translated
               (UnknownException
                  (TypeError
                     "Cannot read properties of undefined (reading 'transformToByteArray')")
                  "TypeError" location))) /\
     (forall blob e,
        GetObject.Body result = Some blob ->
        transformToByteArray blob = Rejected e ->
        fst (getBuffer d bucket location w)
        = Err (Translated (handleError e location bucket)))).
Proof.
  split; [|split].
  - destruct (getObject d {| Key := location; Bucket := bucket |} (backend w))
      as [[result|e] b] eqn:H.
    + rewrite (getStream_resolved _ _ _ _ H). run. rewrite H. cbn.
      destruct (GetObject.Body result) as [blob|]; cbn; [|reflexivity].
      now destruct (transformToByteArray blob).
    + now rewrite (getStream_rejected _ _ _ _ H),
                  (getBuffer_rejected _ _ _ _ H).
  - intros r w' Hr.
    destruct (getObject d {| Key := location; Bucket := bucket |} (backend w))
      as [[result|e] b] eqn:H.
    + rewrite (getStream_resolved _ _ _ _ H). revert Hr. run. rewrite H. cbn.
      destruct (GetObject.Body result) as [blob|]; cbn; [|discriminate].
      destruct (transformToByteArray blob) as [body|e] eqn:Ht; cbn;
        [|discriminate].
      intros [= <- <-]. exists blob. split; [reflexivity|exact Ht].
    + rewrite (getBuffer_rejected _ _ _ _ H) in Hr. discriminate.
  - intros result b H. split; [|split].
    + now rewrite (getStream_resolved _ _ _ _ H).
    + intros Hb. run. rewrite H. cbn. now rewrite Hb.
    + intros blob e Hb Ht. run. rewrite H. cbn. now rewrite Hb, Ht.
Qed.

(** A body that is missing: [getStream] returns [undefined] where
    [getBuffer] raises. *)
Lemma getStream_vs_getBuffer_witness :
  fst (getStream Scripted.client "media" "a.txt"
         (fresh [Scripted.ReplyGet (Resolved {| GetObject.Body := None |})]))
  = Ok None /\
  fst (getBuffer Scripted.client "media" "a.txt"
         (fresh [Scripted.ReplyGet (Resolved {| GetObject.Body := None |})]))
  = Err (Translated
           (UnknownException
              (TypeError
                 "Cannot read properties of undefined (reading 'transformToByteArray')")
              "TypeError" "a.txt")).
Proof.
  pose proof (proj2 (proj2 (getStream_vs_getBuffer Scripted.client "media" "a.txt"
    (fresh [Scripted.ReplyGet (Resolved {| GetObject.Body := None |})])))
    _ _ eq_refl) as (Hs & Hb & _).
  split; [exact Hs | exact (Hb eq_refl)].
Defined.

(** ** More on flatList *)

Section Listing.
Context {W : Type} (d : S3 W) (bucket prefix : string).

Lemma fetchPage_world token (w : World W) :
  snd (fetchPage d bucket prefix token w)
  = {| backend :=
         snd (listObjectsV2 d
                {| ListObjectsV2.Bucket := bucket;
                   ListObjectsV2.Prefix := prefix;
                   ListObjectsV2.ContinuationToken := token;
                   ListObjectsV2.MaxKeys := 1000 |} (backend w));
       calls := calls w ++
         [CallListObjectsV2
            {| ListObjectsV2.Bucket := bucket; ListObjectsV2.Prefix := prefix;
               ListObjectsV2.ContinuationToken := token;
               ListObjectsV2.MaxKeys := 1000 |}] |}.
Proof.
  destruct (listObjectsV2 d
              {| ListObjectsV2.Bucket := bucket; ListObjectsV2.Prefix := prefix;
                 ListObjectsV2.ContinuationToken := token;
                 ListObjectsV2.MaxKeys := 1000 |} (backend w))
    as [[[page next]|e] b] eqn:H.
  - erewrite fetchPage_resolved; [|exact H]. reflexivity.
  - erewrite fetchPage_rejected; [|exact H]. reflexivity.
Qed.

(** The requests of a listing, whatever the backend answers. *)
Lemma flatList_from_requests :
  forall fuel token (w : World W),
  exists requests : list Call,
    calls (snd (flatList_from d bucket fuel prefix token w))
      = (calls w ++ requests)%list /\
    Forall (isPageRequest bucket prefix) requests /\
    (length requests <= fuel)%nat /\
    (finish (fst (flatList_from d bucket fuel prefix token w)) = Suspended ->
     length requests = fuel) /\
    (fuel <> 0%nat ->
     hd_error requests
     = Some (CallListObjectsV2
               {| ListObjectsV2.Bucket := bucket;
                  ListObjectsV2.Prefix := prefix;
                  ListObjectsV2.ContinuationToken := token;
                  ListObjectsV2.MaxKeys := 1000 |})).
Proof.
  induction fuel as [|fuel IH]; intros token w; cbn [flatList_from].
  - exists []. cbn. rewrite app_nil_r. repeat split; auto. congruence.
  - pose proof (fetchPage_world token w) as Hw.
    destruct (fetchPage d bucket prefix token w) as [[[next files]|e] w1].
    + cbn [snd] in Hw. destruct (truthy next).
      * destruct (IH next w1) as (requests & Hc & Hall & Hlen & Hsus & _).
        destruct (flatList_from d bucket fuel prefix next w1) as [rest w2].
        cbn [fst snd finish] in *.
        eexists (_ :: requests). rewrite Hc, Hw. cbn [calls].
        rewrite <- app_assoc. split; [reflexivity|].
        split. { constructor; [now exists token | exact Hall]. }
        split; [cbn; lia|]. split; [|reflexivity].
        intros Hf. cbn. now rewrite (Hsus Hf).
      * eexists [_]. cbn [fst snd finish]. rewrite Hw. cbn [calls].
        split; [reflexivity|].
        split. { constructor; [now exists token | constructor]. }
        split; [cbn; lia|]. split; [discriminate|reflexivity].
    + eexists [_]. cbn [fst snd finish] in *. rewrite Hw. cbn [calls].
      split; [reflexivity|].
      split. { constructor; [now exists token | constructor]. }
      split; [cbn; lia|]. split; [discriminate|reflexivity].
Qed.

(** Once a listing has ended, more fuel changes nothing. *)
Lemma flatList_from_stable :
  forall fuel fuel' token (w : World W),
    finish (fst (flatList_from d bucket fuel prefix token w)) <> Suspended ->
    (fuel <= fuel')%nat ->
    flatList_from d bucket fuel' prefix token w
    = flatList_from d bucket fuel prefix token w.
Proof.
  induction fuel as [|fuel IH]; intros fuel' token w; cbn [flatList_from].
  - cbn. congruence.
  - intros Hf Hle. destruct fuel' as [|fuel']; [lia|]. cbn [flatList_from].
    destruct (fetchPage d bucket prefix token w) as [[[next files]|e] w1];
      [|reflexivity].
    destruct (truthy next); [|reflexivity].
    rewrite (IH fuel' next w1); [reflexivity | | lia].
    destruct (flatList_from d bucket fuel prefix next w1) as [rest w2].
    exact Hf.
Qed.

(** Over a backend that breaks after handing out [objs], the listing
    yields [objs] and then raises. *)
Lemma flatList_from_breaks token b objs e b' :
  breaks d bucket prefix token b objs e b' ->
  exists pages,
    forall fuel log, (pages <= fuel)%nat ->
      fst (flatList_from d bucket fuel prefix token
             {| backend := b; calls := log |})
      = {| yielded := map entry objs;
           finish := Raised (Translated (handleError e prefix bucket)) |} /\
      backend (snd (flatList_from d bucket fuel prefix token
                      {| backend := b; calls := log |})) = b' /\
      length (calls (snd (flatList_from d bucket fuel prefix token
                            {| backend := b; calls := log |})))
      = (length log + pages)%nat.
Proof.
  induction 1 as [token b e b' H | token b next b' H
                 | token b page next b1 rest e b' H Hne _ IH].
  - exists 1%nat. intros [|fuel] log Hf; [lia|]. cbn [flatList_from].
    erewrite fetchPage_rejected; [|exact H]. cbn.
    rewrite length_app. cbn. auto.
  - exists 1%nat. intros [|fuel] log Hf; [lia|]. cbn [flatList_from].
    erewrite fetchPage_resolved; [|exact H]. cbn.
    rewrite length_app. cbn. auto.
  - destruct IH as (pages & IH). exists (S pages).
    intros [|fuel] log Hf; [lia|]. cbn [flatList_from].
    erewrite fetchPage_resolved; [|exact H]. cbn.
    apply String.eqb_neq in Hne. rewrite Hne. cbn.
    match goal with |- context [flatList_from d bucket fuel prefix ?t ?w0] =>
      destruct (IH fuel (calls w0)) as (Hy & Hb & Hl); [lia|];
      cbn [calls] in Hy, Hb, Hl;
      destruct (flatList_from d bucket fuel prefix t w0) as [r w2]
    end.
    cbn [fst snd] in *. subst r. cbn.
    rewrite map_app. repeat split; [exact Hb|].
    rewrite Hl, length_app. cbn. lia.
Qed.

End Listing.

(** X6. Whatever the backend answers, [flatList] does nothing but list:
    every call it makes is a [listObjectsV2] on the driver's bucket,
    for its prefix (the empty prefix when none is given), with
    [MaxKeys] 1000; the first one carries no continuation token; and
    it makes one request per turn of its loop, so as many as the loop
    was allowed turns when it has not ended by then. *)
Theorem flatList_only_lists W (d : S3 W) (bucket : string) (fuel : nat)
    (prefix : option string) (w : World W) :
  let p := match prefix with Some p => p | None => "" end in
  exists requests : list Call,
    calls (snd (flatList d bucket fuel prefix w)) = (calls w ++ requests)%list /\
    Forall (isPageRequest bucket p) requests /\
    (length requests <= fuel)%nat /\
    (finish (fst (flatList d bucket fuel prefix w)) = Suspended ->
     length requests = fuel) /\
    (fuel <> 0%nat ->
     hd_error requests
     = Some (CallListObjectsV2
               {| ListObjectsV2.Bucket := bucket;
                  ListObjectsV2.Prefix := p;
                  ListObjectsV2.ContinuationToken := None;
                  ListObjectsV2.MaxKeys := 1000 |})).
Proof.
  intros p. unfold flatList. fold p.
  apply flatList_from_requests.
Qed.

(** X7. When the backend fails a page, by rejecting the request or by
    answering without [Contents], after pages that held the objects
    [objs], consuming [flatList(prefix)] yields the entries of [objs],
    all of them and in order, and then raises the translated error,
    which names the prefix; no request follows the failed one. *)
Theorem flatList_breaks W (d : S3 W) (bucket prefix : string) (w : World W)
    (objs : list ListObjectsV2.Object) (e : Error) (b' : W) :
  breaks d bucket prefix None (backend w) objs e b' ->
  exists pages, forall fuel, (pages <= fuel)%nat ->
    fst (flatList d bucket fuel (Some prefix) w)
    = {| yielded := map entry objs;
         finish := Raised (Translated (handleError e prefix bucket)) |} /\
    backend (snd (flatList d bucket fuel (Some prefix) w)) = b' /\
    length (calls (snd (flatList d bucket fuel (Some prefix) w)))
    = (length (calls w) + pages)%nat.
Proof.
  intros H. destruct (flatList_from_breaks H) as (pages & Hrun).
  exists pages. intros fuel Hf. unfold flatList.
  destruct w as [b log]. exact (Hrun fuel log Hf).
Qed.

(** A second page that is rejected with a 503, and a first page that
    comes without [Contents]. *)
Lemma flatList_breaks_witness :
  (exists pages, forall fuel, (pages <= fuel)%nat ->
     fst (flatList Scripted.client "logs" fuel (Some "day-")
            (fresh [Scripted.ReplyList
                      (Resolved
                         {| ListObjectsV2.Contents :=
                              Some [{| ListObjectsV2.Key := "day-0";
                                       ListObjectsV2.Size := 1 |}];
                            ListObjectsV2.NextContinuationToken := Some "t1" |});
                    Scripted.ReplyList (Rejected (MemS3.error "SlowDown" 503))]))
     = {| yielded :=
            [{| FileListResponse_raw :=
                  OfListed {| ListObjectsV2.Key := "day-0";
                              ListObjectsV2.Size := 1 |};
                path := "day-0" |}];
          finish :=
            Raised (Translated
                      (UnknownException (MemS3.error "SlowDown" 503)
                                        "SlowDown" "day-")) |}) /\
  (exists pages, forall fuel, (pages <= fuel)%nat ->
     fst (flatList Scripted.client "logs" fuel (Some "day-")
            (fresh [Scripted.ReplyList
                      (Resolved
                         {| ListObjectsV2.Contents := None;
                            ListObjectsV2.NextContinuationToken := None |})]))
     = {| yielded := [];
          finish :=
            Raised (Translated
                      (UnknownException
                         (TypeError "response.Contents is not iterable")
                         "TypeError" "day-")) |}).
Proof.
  split.
  - destruct (@flatList_breaks _ Scripted.client "logs" "day-"
                (fresh [Scripted.ReplyList
                      (Resolved
                         {| ListObjectsV2.Contents :=
                              Some [{| ListObjectsV2.Key := "day-0";
                                       ListObjectsV2.Size := 1 |}];
                            ListObjectsV2.NextContinuationToken := Some "t1" |});
                    Scripted.ReplyList (Rejected (MemS3.error "SlowDown" 503))])
                ([{| ListObjectsV2.Key := "day-0"; ListObjectsV2.Size := 1 |}]
                   ++ [])
                (MemS3.error "SlowDown" 503) [])
      as (pages & H).
    { eapply breaks_later; [reflexivity | discriminate |].
      apply breaks_rejected. reflexivity. }
    exists pages. intros fuel Hf. exact (proj1 (H fuel Hf)).
  - destruct (@flatList_breaks _ Scripted.client "logs" "day-"
                (fresh [Scripted.ReplyList
                      (Resolved
                         {| ListObjectsV2.Contents := None;
                            ListObjectsV2.NextContinuationToken := None |})])
                [] (TypeError "response.Contents is not iterable") [])
      as (pages & H).
    { eapply breaks_undefined. reflexivity. }
    exists pages. intros fuel Hf. exact (proj1 (H fuel Hf)).
Defined.

(** X8. The loop has no bound of its own and does not notice a token it
    has seen before: over a backend that answers every page request
    with a page and a non-empty continuation token, [flatList] never
    ends.  However many turns the loop is allowed, it is still waiting
    for a page after them and has made as many requests. *)
Theorem flatList_endless W (d : S3 W) (bucket prefix : string) (w : World W) :
  (forall token b,
     exists page next b',
       listObjectsV2 d
         {| ListObjectsV2.Bucket := bucket; ListObjectsV2.Prefix := prefix;
            ListObjectsV2.ContinuationToken := token;
            ListObjectsV2.MaxKeys := 1000 |} b
       = (Resolved {| ListObjectsV2.Contents := Some page;
                      ListObjectsV2.NextContinuationToken := Some next |}, b') /\
       next <> "") ->
  forall fuel,
    finish (fst (flatList d bucket fuel (Some prefix) w)) = Suspended /\
    length (calls (snd (flatList d bucket fuel (Some prefix) w)))
    = (length (calls w) + fuel)%nat.
Proof.
  intros Hloop fuel. unfold flatList. generalize (@None string) as token.
  revert w. induction fuel as [|fuel IH]; intros w token; cbn [flatList_from].
  - cbn. split; [reflexivity|lia].
  - destruct (Hloop token (backend w)) as (page & next & b' & H & Hne).
    erewrite fetchPage_resolved; [|exact H]. cbn.
    apply String.eqb_neq in Hne. rewrite Hne. cbn.
    match goal with |- context [flatList_from d bucket fuel prefix ?t ?w0] =>
      destruct (IH w0 t) as (Hf & Hl);
      destruct (flatList_from d bucket fuel prefix t w0) as [r w2]
    end.
    cbn [fst snd finish] in *. split; [exact Hf|].
    rewrite Hl. cbn. rewrite length_app. cbn. lia.
Qed.

Lemma flatList_endless_witness :
  finish (fst (flatList Endless.client "logs" 50 (Some "day-") (fresh tt)))
  = Suspended /\
  length (calls (snd (flatList Endless.client "logs" 50 (Some "day-")
                               (fresh tt))))
  = 50%nat.
Proof.
  apply (fun H => flatList_endless Endless.client "logs" "day-" (fresh tt) H 50).
  intros token []. exists [{| ListObjectsV2.Key := "again";
                              ListObjectsV2.Size := 0 |}], "more", tt.
  split; [reflexivity|discriminate].
Defined.

(** X9. An empty string for a continuation token counts as none: the
    [while] tests the token's truthiness.  After a page that comes with
    the token [""], the listing is complete, with the entries of that
    page and that one request, whatever the backend still holds. *)
Theorem flatList_empty_token W (d : S3 W) (bucket prefix : string)
    (w : World W) (page : list ListObjectsV2.Object) (b : W) :
  listObjectsV2 d
    {| ListObjectsV2.Bucket := bucket; ListObjectsV2.Prefix := prefix;
       ListObjectsV2.ContinuationToken := None;
       ListObjectsV2.MaxKeys := 1000 |} (backend w)
  = (Resolved {| ListObjectsV2.Contents := Some page;
                 ListObjectsV2.NextContinuationToken := Some "" |}, b) ->
  forall fuel, (1 <= fuel)%nat ->
    flatList d bucket fuel (Some prefix) w
    = ({| yielded := map entry page; finish := Completed |},
       {| backend := b;
          calls := calls w ++
            [CallListObjectsV2
               {| ListObjectsV2.Bucket := bucket; ListObjectsV2.Prefix := prefix;
                  ListObjectsV2.ContinuationToken := None;
                  ListObjectsV2.MaxKeys := 1000 |}] |}).
Proof.
  intros H [|fuel] Hf; [lia|]. unfold flatList. cbn [flatList_from].
  erewrite fetchPage_resolved; [|exact H]. reflexivity.
Qed.

(** The second page the backend has ready is never asked for. *)
Lemma flatList_empty_token_witness :
  let second :=
    Scripted.ReplyList
      (Resolved {| ListObjectsV2.Contents :=
                     Some [{| ListObjectsV2.Key := "day-1";
                              ListObjectsV2.Size := 1 |}];
                   ListObjectsV2.NextContinuationToken := None |}) in
  let run :=
    flatList Scripted.client "logs" 5 (Some "day-")
      (fresh [Scripted.ReplyList
                (Resolved {| ListObjectsV2.Contents :=
                               Some [{| ListObjectsV2.Key := "day-0";
                                        ListObjectsV2.Size := 1 |}];
                             ListObjectsV2.NextContinuationToken := Some "" |});
              second]) in
  map path (yielded (fst run)) = ["day-0"] /\
  finish (fst run) = Completed /\
  backend (snd run) = [second].
Proof.
  intros second run. subst run.
  match goal with |- context [flatList _ _ _ _ ?w0] =>
    rewrite (@flatList_empty_token _ Scripted.client "logs" "day-" w0
               [{| ListObjectsV2.Key := "day-0"; ListObjectsV2.Size := 1 |}]
               [second] eq_refl 5 ltac:(lia))
  end.
  repeat split.
Defined.

(** X10. The outcome of a listing does not depend on how many turns the
    loop is allowed, once they suffice: when the listing has ended,
    completed or raised, within [fuel] page requests, it gives the same
    entries, the same ending and the same world with any larger
    allowance. *)
Theorem flatList_stable W (d : S3 W) (bucket : string) (fuel fuel' : nat)
    (prefix : option string) (w : World W) :
  finish (fst (flatList d bucket fuel prefix w)) <> Suspended ->
  (fuel <= fuel')%nat ->
  flatList d bucket fuel' prefix w = flatList d bucket fuel prefix w.
Proof. unfold flatList. apply flatList_from_stable. Qed.

Lemma flatList_stable_witness :
  flatList MemS3.client "logs" 9 (Some "day-") (fresh (logs 3))
  = flatList MemS3.client "logs" 1 (Some "day-") (fresh (logs 3)).
Proof.
  apply (@flatList_stable _ MemS3.client "logs" 1 9 (Some "day-")
           (fresh (logs 3))).
  - vm_compute. discriminate.
  - lia.
Defined.

(** ** handleError, again *)

(** X11. [handleError] reads nothing of the error but its name: two
    errors of the same name give the same kind of exception, whatever
    their status code, their message, the path and the bucket.  And of
    the path and the bucket an exception keeps one: a ['NoSuchBucket']
    failure gives the same exception whatever the path, every other
    failure the same exception whatever the bucket. *)
Theorem handleError_by_name :
  (forall e1 e2 p1 p2 b1 b2,
     name e1 = name e2 ->
     kindOf (handleError e1 p1 b1) = kindOf (handleError e2 p2 b2)) /\
  (forall err p1 p2 b,
     name err = "NoSuchBucket" ->
     handleError err p1 b = handleError err p2 b) /\
  (forall err p b1 b2,
     name err <> "NoSuchBucket" ->
     handleError err p b1 = handleError err p b2).
Proof.
  split; [|split].
  - intros e1 e2 p1 p2 b1 b2 H. unfold handleError. rewrite H.
    repeat match goal with |- context [if ?b then _ else _] => destruct b end;
      reflexivity.
  - intros err p1 p2 b H. unfold handleError. now rewrite H.
  - intros err p b1 b2 H. unfold handleError.
    apply String.eqb_neq in H. now rewrite H.
Qed.

Lemma handleError_by_name_witness :
  kindOf (handleError (MemS3.error "NoSuchKey" 404) "a.txt" "media")
  = kindOf (handleError (mkError "NoSuchKey" "gone" None) "b.txt" "logs") /\
  handleError (MemS3.error "NoSuchBucket" 404) "a.txt" "media"
  = handleError (MemS3.error "NoSuchBucket" 404) "b.txt" "media".
Proof.
  split.
  - apply (proj1 handleError_by_name). reflexivity.
  - apply (proj1 (proj2 handleError_by_name)). reflexivity.
Defined.

(** ** Construction *)

Lemma getProp_setProp p q v (o : JsObject) :
  getProp p (setProp q v o) = if q =? p then v else getProp p o.
Proof.
  induction o as [|[r u] o IH]; cbn.
  - reflexivity.
  - destruct (String.eqb_spec r q) as [->|Hrq]; cbn.
    + now destruct (q =? p).
    + rewrite IH. destruct (String.eqb_spec r p) as [->|Hrp]; [|reflexivity].
      apply String.eqb_neq in Hrq. rewrite String.eqb_sym in Hrq.
      now rewrite Hrq.
Qed.

Lemma hasProp_setProp p q v (o : JsObject) :
  hasProp p (setProp q v o) = (q =? p) || hasProp p o.
Proof.
  induction o as [|[r u] o IH]; cbn.
  - now rewrite orb_false_r.
  - destruct (String.eqb_spec r q) as [->|Hrq]; cbn.
    + now destruct (q =? p).
    + rewrite IH. now destruct (r =? p), (q =? p).
Qed.

Lemma hasProp_In p (o : JsObject) :
  hasProp p o = true <-> In p (map fst o).
Proof.
  induction o as [|[r u] o IH]; cbn.
  - split; [discriminate|tauto].
  - rewrite orb_true_iff, IH. now rewrite String.eqb_eq.
Qed.

Lemma In_setProp x q v (o : JsObject) :
  In x (map fst (setProp q v o)) -> x = q \/ In x (map fst o).
Proof.
  induction o as [|[r u] o IH]; cbn.
  - intros [<-|[]]. now left.
  - destruct (String.eqb_spec r q) as [->|Hrq]; cbn.
    + intros [<-|H]; auto.
    + intros [<-|H]; auto. destruct (IH H); auto.
Qed.

Lemma NoDup_setProp q v (o : JsObject) :
  NoDup (map fst o) -> NoDup (map fst (setProp q v o)).
Proof.
  induction o as [|[r u] o IH]; cbn; intros H.
  - constructor; [tauto|constructor].
  - inversion H as [|? ? Hin Hnd]; subst.
    destruct (String.eqb_spec r q) as [->|Hrq]; cbn.
    + now constructor.
    + constructor; [|auto].
      intros Hr. apply In_setProp in Hr as [->|Hr]; tauto.
Qed.

(** [{ ...target, ...source }] reads as [source] where [source] has the
    property, and as [target] elsewhere. *)
Lemma getProp_spread p (source : JsObject) :
  NoDup (map fst source) ->
  forall target,
    getProp p (spread target source)
    = if hasProp p source then getProp p source else getProp p target.
Proof.
  unfold spread.
  induction source as [|[q v] source IH]; cbn; intros H target.
  - reflexivity.
  - inversion H as [|? ? Hin Hnd]; subst.
    rewrite (IH Hnd), getProp_setProp.
    destruct (String.eqb_spec q p) as [->|Hqp]; cbn; [|reflexivity].
    destruct (hasProp p source) eqn:Hp; [|reflexivity].
    apply hasProp_In in Hp. tauto.
Qed.

(** X12. The constructor keeps [config.bucket] as the bucket of the
    instance and hands the client the whole configuration, the fields
    [key], [secret] and [bucket] included, with [config.key] and
    [config.secret] added as [accessKeyId] and [secretAccessKey].
    The configuration is spread last, so it wins: an [accessKeyId] or
    [secretAccessKey] of its own replaces the one made from [key] or
    [secret]. *)
Theorem constructor_options W (newS3 : JsObject -> S3 W)
    (config : Config.AmazonWebServicesS3StorageConfig) :
  NoDup (map fst (Config.clientConfig config)) ->
  instance_bucket (construct newS3 config) = Config.bucket config /\
  instance_driver (construct newS3 config) = newS3 (clientOptions config) /\
  forall p,
    getProp p (clientOptions config)
    = if p =? "bucket" then OfString (Config.bucket config)
      else if p =? "secret" then OfString (Config.secret config)
      else if p =? "key" then OfString (Config.key config)
      else if hasProp p (Config.clientConfig config)
           then getProp p (Config.clientConfig config)
      else if p =? "accessKeyId" then OfString (Config.key config)
      else if p =? "secretAccessKey" then OfString (Config.secret config)
      else undefined.
Proof.
  intros Hnd. split; [reflexivity|]. split; [reflexivity|]. intros p.
  unfold clientOptions. rewrite getProp_spread.
  2:{ unfold Config.object. now repeat apply NoDup_setProp. }
  unfold Config.object.
  rewrite !hasProp_setProp, !getProp_setProp.
  rewrite (String.eqb_sym "bucket"), (String.eqb_sym "secret"),
          (String.eqb_sym "key").
  destruct (p =? "bucket"); [reflexivity|].
  destruct (p =? "secret"); [reflexivity|].
  destruct (p =? "key"); [reflexivity|]. cbn [orb].
  destruct (hasProp p (Config.clientConfig config)); [reflexivity|].
  cbn [getProp]. rewrite (String.eqb_sym "accessKeyId"),
                         (String.eqb_sym "secretAccessKey").
  reflexivity.
Qed.

(** A configuration with a region, and one that brings an
    [accessKeyId] of its own. *)
Lemma constructor_options_witness :
  getProp "accessKeyId"
    (clientOptions
       {| Config.key := "AKIA"; Config.secret := "s3cr3t";
          Config.bucket := "media";
          Config.clientConfig := [("region", OfString "eu-west-3")] |})
  = OfString "AKIA" /\
  getProp "accessKeyId"
    (clientOptions
       {| Config.key := "AKIA"; Config.secret := "s3cr3t";
          Config.bucket := "media";
          Config.clientConfig := [("accessKeyId", OfString "OTHER")] |})
  = OfString "OTHER".
Proof.
  split.
  - exact (proj2 (proj2 (constructor_options (fun _ => MemS3.client)
      {| Config.key := "AKIA"; Config.secret := "s3cr3t";
         Config.bucket := "media";
         Config.clientConfig := [("region", OfString "eu-west-3")] |}
      ltac:(repeat constructor; cbn; tauto))) "accessKeyId").
  - exact (proj2 (proj2 (constructor_options (fun _ => MemS3.client)
      {| Config.key := "AKIA"; Config.secret := "s3cr3t";
         Config.bucket := "media";
         Config.clientConfig := [("accessKeyId", OfString "OTHER")] |}
      ltac:(repeat constructor; cbn; tauto))) "accessKeyId").
Defined.

(** ** Over a bucket that behaves as a store *)

Lemma MemS3_lookup_store k q v l :
  MemS3.lookup k (MemS3.store q v l)
  = if k =? q then Some v else MemS3.lookup k l.
Proof.
  rewrite (String.eqb_sym k q).
  induction l as [|[r u] l IH]; cbn.
  - reflexivity.
  - destruct (String.eqb_spec r q) as [->|Hrq]; cbn.
    + now destruct (q =? k).
    + rewrite IH. destruct (String.eqb_spec r k) as [->|Hrk]; [|reflexivity].
      apply String.eqb_neq in Hrq. rewrite String.eqb_sym in Hrq.
      now rewrite Hrq.
Qed.

Lemma MemS3_lookup_remove k q l :
  MemS3.lookup k (MemS3.remove q l)
  = if k =? q then None else MemS3.lookup k l.
Proof.
  unfold MemS3.remove.
  induction l as [|[r u] l IH]; cbn.
  - now destruct (k =? q).
  - destruct (String.eqb_spec r q) as [->|Hrq]; cbn.
    + rewrite IH. rewrite (String.eqb_sym q k). now destruct (k =? q).
    + rewrite IH. destruct (String.eqb_spec r k) as [->|Hrk]; [|reflexivity].
      apply String.eqb_neq in Hrq. now rewrite Hrq.
Qed.

Lemma MemS3_stripPrefix_app p q s :
  MemS3.stripPrefix (p ++ q) (p ++ s) = MemS3.stripPrefix q s.
Proof.
  induction p as [|a p IH]; cbn; [reflexivity|].
  now rewrite Ascii.eqb_refl.
Qed.

(** The in-memory bucket behaves as a store. *)
Lemma MemS3_storeLike bucket :
  StoreLike MemS3.client bucket (memView bucket).
Proof.
  unfold StoreLike, memView, MemS3.client. cbn [headObject getObject
    copyObject deleteObject putObject].
  repeat apply conj.
  - intros k st. unfold MemS3.headObject, MemS3.inBucket. cbn [Key Bucket].
    destruct (bucket =? MemS3.bucketName st); [|auto].
    destruct (MemS3.lookup k (MemS3.objects st)); [|auto].
    split; [reflexivity|discriminate].
  - intros k st. unfold MemS3.getObject, MemS3.inBucket. cbn [Key Bucket].
    destruct (bucket =? MemS3.bucketName st); [|auto].
    destruct (MemS3.lookup k (MemS3.objects st)) as [v|]; [|auto].
    split; [reflexivity|]. now exists v.
  - intros src dest st. unfold MemS3.copyObject, MemS3.inBucket.
    cbn [CopyObject.Key CopyObject.Bucket CopyObject.CopySource].
    destruct (String.eqb_spec bucket (MemS3.bucketName st)) as [->|Hb];
      [|reflexivity].
    replace (MemS3.stripPrefix ("/" ++ MemS3.bucketName st ++ "/")
               ("/" ++ MemS3.bucketName st ++ "/" ++ src))
      with (Some src).
    2:{ change ("/" ++ MemS3.bucketName st ++ "/")
          with (String "/" (MemS3.bucketName st ++ "/")).
        change ("/" ++ MemS3.bucketName st ++ "/" ++ src)
          with (String "/" (MemS3.bucketName st ++ "/" ++ src)).
        cbn [MemS3.stripPrefix]. rewrite Ascii.eqb_refl.
        now rewrite MemS3_stripPrefix_app. }
    destruct (MemS3.lookup src (MemS3.objects st)) as [v|]; [|reflexivity].
    destruct (MemS3.isLocked dest st); [reflexivity|].
    exists v. split; [reflexivity|]. intros k. cbn.
    rewrite String.eqb_refl. apply MemS3_lookup_store.
  - intros location st. unfold MemS3.deleteObject, MemS3.inBucket.
    cbn [Key Bucket].
    destruct (String.eqb_spec bucket (MemS3.bucketName st)) as [->|Hb];
      [|reflexivity].
    destruct (MemS3.isLocked location st); [reflexivity|].
    intros k. cbn. rewrite String.eqb_refl. apply MemS3_lookup_remove.
  - intros location bytes st. unfold MemS3.putObject, MemS3.inBucket.
    cbn [PutObject.Key PutObject.Bucket PutObject.Body MemS3.bytesOf].
    destruct (String.eqb_spec bucket (MemS3.bucketName st)) as [->|Hb];
      [|reflexivity].
    destruct (MemS3.isLocked location st); [reflexivity|].
    intros k. cbn. rewrite String.eqb_refl. apply MemS3_lookup_store.
Qed.

(** So does the same bucket behind the client the driver imports. *)
Lemma SdkV3_storeLike bucket :
  StoreLike SdkV3.client bucket (memView bucket).
Proof.
  destruct (MemS3_storeLike bucket) as (Hh & Hg & Hc & Hd & Hp).
  unfold StoreLike, SdkV3.client, SdkV3.settled.
  cbn [headObject getObject copyObject deleteObject putObject].
  unfold MemS3.client in *.
  cbn [headObject getObject copyObject deleteObject putObject] in *.
  repeat apply conj.
  - intros k st. specialize (Hh k st).
    now destruct (MemS3.headObject {| Key := k; Bucket := bucket |} st)
      as [[?|?] ?].
  - intros k st. specialize (Hg k st).
    now destruct (MemS3.getObject {| Key := k; Bucket := bucket |} st)
      as [[?|?] ?].
  - intros src dest st. specialize (Hc src dest st).
    now destruct (MemS3.copyObject
                    {| CopyObject.Key := dest; CopyObject.Bucket := bucket;
                       CopyObject.CopySource := "/" ++ bucket ++ "/" ++ src |}
                    st) as [[?|?] ?].
  - intros location st. specialize (Hd location st).
    now destruct (MemS3.deleteObject {| Key := location; Bucket := bucket |} st)
      as [[?|?] ?].
  - intros location bytes st. specialize (Hp location bytes st).
    now destruct (MemS3.putObject
                    {| PutObject.Key := location;
                       PutObject.Body := ContentBuffer bytes;
                       PutObject.Bucket := bucket |} st) as [[?|?] ?].
Qed.

Section Store.
Context {W : Type} (d : S3 W) (bucket : string)
        (view : W -> string -> option Buffer).
Hypothesis Hstore : StoreLike d bucket view.

(** [exists] answers [true] on a key the bucket holds.  On a key it
    does not hold, [exists] answers [false] or raises, as the error of
    the probe carries the status 404 or not: it never answers [true]. *)
Lemma store_exists location (w : World W) :
  match view (backend w) location with
  | Some _ =>
    exists r,
      exists_at d bucket location w
      = (Ok r, probed bucket location w (backend w)) /\
      exists_ r = true
  | None =>
    (exists r,
       exists_at d bucket location w
       = (Ok r, probed bucket location w (backend w)) /\
       exists_ r = false) \/
    (exists x,
       exists_at d bucket location w
       = (Err (Translated x), probed bucket location w (backend w)))
  end.
Proof.
  destruct Hstore as (Hhead & _). specialize (Hhead location (backend w)).
  destruct (headObject d {| Key := location; Bucket := bucket |} (backend w))
    as [[result|e] b] eqn:H.
  - destruct Hhead as (-> & Hv). rewrite (exists_at_present _ _ _ _ H).
    destruct (view (backend w) location); [|congruence].
    eexists. split; reflexivity.
  - destruct Hhead as (-> & Hv). rewrite Hv.
    assert ({statusCode e = Some 404%Z} + {statusCode e <> Some 404%Z})
      as [Hs|Hs] by repeat decide equality.
    + left. rewrite (exists_at_absent _ _ _ _ H Hs).
      eexists. split; reflexivity.
    + right. rewrite (exists_at_failed _ _ _ _ H Hs). eexists. reflexivity.
Qed.

Lemma store_not_there location (w : World W) :
  view (backend w) location = None ->
  forall r, fst (exists_at d bucket location w) = Ok r -> exists_ r = false.
Proof.
  intros Hv r. pose proof (store_exists location w) as H. rewrite Hv in H.
  destruct H as [(r' & -> & Hx) | (x & ->)]; cbn.
  - now intros [= <-].
  - discriminate.
Qed.

Lemma store_getBuffer location (w : World W) :
  match view (backend w) location with
  | Some v =>
    exists r,
      getBuffer d bucket location w
      = (Ok r, fetched bucket location w (backend w)) /\
      content r = v
  | None =>
    exists x,
      getBuffer d bucket location w
      = (Err (Translated x), fetched bucket location w (backend w))
  end.
Proof.
  destruct Hstore as (_ & Hget & _). specialize (Hget location (backend w)).
  destruct (getObject d {| Key := location; Bucket := bucket |} (backend w))
    as [[result|e] b] eqn:H.
  - destruct Hget as (-> & v & Hv & Hb). rewrite Hv.
    erewrite getBuffer_resolved; [| exact H | exact Hb | reflexivity].
    eexists. split; reflexivity.
  - destruct Hget as (-> & Hv). rewrite Hv.
    rewrite (getBuffer_rejected _ _ _ _ H). eexists. reflexivity.
Qed.

Lemma store_reads location v (w : World W) :
  view (backend w) location = Some v ->
  exists r, fst (getBuffer d bucket location w) = Ok r /\ content r = v.
Proof.
  intros Hv. pose proof (store_getBuffer location w) as H. rewrite Hv in H.
  destruct H as (r & -> & Hc). now exists r.
Qed.

Lemma store_misses location (w : World W) :
  view (backend w) location = None ->
  exists x, fst (getBuffer d bucket location w) = Err (Translated x).
Proof.
  intros Hv. pose proof (store_getBuffer location w) as H. rewrite Hv in H.
  destruct H as (x & ->). now exists x.
Qed.

Lemma store_copy src dest (w w1 : World W) r :
  copy d bucket src dest w = (Ok r, w1) ->
  exists v,
    view (backend w) src = Some v /\
    forall k, view (backend w1) k
              = if k =? dest then Some v else view (backend w) k.
Proof.
  destruct Hstore as (_ & _ & Hcopy & _).
  specialize (Hcopy src dest (backend w)).
  destruct (copyObject d
              {| CopyObject.Key := dest; CopyObject.Bucket := bucket;
                 CopyObject.CopySource := "/" ++ bucket ++ "/" ++ src |}
              (backend w)) as [[result|e] b] eqn:H.
  - erewrite copy_resolved; [| reflexivity | exact H].
    intros [= _ <-]. exact Hcopy.
  - erewrite copy_rejected; [| reflexivity | exact H]. discriminate.
Qed.

Lemma store_delete location (w w1 : World W) r :
  delete d bucket location w = (Ok r, w1) ->
  forall k, view (backend w1) k
            = if k =? location then None else view (backend w) k.
Proof.
  destruct Hstore as (_ & _ & _ & Hdel & _).
  specialize (Hdel location (backend w)).
  destruct (deleteObject d {| Key := location; Bucket := bucket |} (backend w))
    as [[result|e] b] eqn:H.
  - rewrite (delete_resolved _ _ _ _ H). intros [= _ <-]. exact Hdel.
  - rewrite (delete_rejected _ _ _ _ H). discriminate.
Qed.

End Store.

(** X13. Over a bucket that behaves as a store ([StoreLike]), a
    [move(src, dest)] that returns has moved the object: [src] was
    there; afterwards [getBuffer(src)] raises an exception of the
    abstraction and [exists(src)] does not answer [true]; every other
    key but [dest] is as it was; and, when [dest] is another key than
    [src], [exists(dest)] answers [true] and [getBuffer(dest)] returns
    the bytes [src] held.  When [dest] is [src] itself the object is
    gone: the copy onto itself is followed by the delete. *)
Theorem move_moves W (d : S3 W) (bucket : string)
    (view : W -> string -> option Buffer) (src dest : string)
    (w w1 : World W) (r : Response) :
  StoreLike d bucket view ->
  move d bucket src dest w = (Ok r, w1) ->
  exists v,
    view (backend w) src = Some v /\
    (exists x, fst (getBuffer d bucket src w1) = Err (Translated x)) /\
    (forall r', fst (exists_at d bucket src w1) = Ok r' -> exists_ r' = false) /\
    (forall k, k <> src -> k <> dest ->
               view (backend w1) k = view (backend w) k) /\
    (src <> dest ->
     (exists r', fst (exists_at d bucket dest w1) = Ok r' /\ exists_ r' = true) /\
     (exists r', fst (getBuffer d bucket dest w1) = Ok r' /\ content r' = v)).
Proof.
  intros Hstore. unfold move, bind, ret.
  destruct (copy d bucket src dest w) as [[rc|t] wc] eqn:Hc; [|discriminate].
  destruct (delete d bucket src wc) as [[rd|t] wd] eqn:Hd; [|discriminate].
  intros [= _ <-].
  destruct (store_copy Hstore _ _ _ Hc) as (v & Hv & Hcv).
  pose proof (store_delete Hstore _ _ Hd) as Hdv.
  assert (Hgone : view (backend wd) src = None)
    by now rewrite Hdv, String.eqb_refl.
  exists v. split; [exact Hv|]. split; [|split; [|split]].
  - exact (store_misses Hstore _ _ Hgone).
  - exact (store_not_there Hstore _ _ Hgone).
  - intros k Hks Hkd. rewrite Hdv, Hcv.
    apply String.eqb_neq in Hks, Hkd. now rewrite Hks, Hkd.
  - intros Hne.
    assert (Hdest : view (backend wd) dest = Some v).
    { rewrite Hdv, Hcv, String.eqb_refl.
      assert (dest <> src) as Hne' by congruence.
      apply String.eqb_neq in Hne'. now rewrite Hne'. }
    split.
    + pose proof (store_exists Hstore dest wd) as He. rewrite Hdest in He.
      destruct He as (r' & -> & Hx). now exists r'.
    + exact (store_reads Hstore _ _ Hdest).
Qed.

(** Through the client the driver imports, on the bucket [media]:
    ["a.txt"] moved to ["b.txt"], and ["a.txt"] moved onto itself. *)
Lemma move_moves_witness :
  (let w1 := snd (move SdkV3.client "media" "a.txt" "b.txt" (fresh media)) in
   (exists x, fst (getBuffer SdkV3.client "media" "a.txt" w1)
              = Err (Translated x)) /\
   (exists r', fst (getBuffer SdkV3.client "media" "b.txt" w1) = Ok r' /\
               content r' = list_byte_of_string "alpha")) /\
  (let w1 := snd (move SdkV3.client "media" "a.txt" "a.txt" (fresh media)) in
   exists x, fst (getBuffer SdkV3.client "media" "a.txt" w1)
             = Err (Translated x)).
Proof.
  split; intros w1.
  - destruct (@move_moves _ SdkV3.client "media" (memView "media")
                "a.txt" "b.txt" (fresh media) w1 _
                (SdkV3_storeLike "media") eq_refl)
      as (v & Hv & Hsrc & _ & _ & Hdest).
    injection Hv as <-. split; [exact Hsrc|].
    apply Hdest. discriminate.
  - destruct (@move_moves _ SdkV3.client "media" (memView "media")
                "a.txt" "a.txt" (fresh media) w1 _
                (SdkV3_storeLike "media") eq_refl)
      as (v & _ & Hsrc & _).
    exact Hsrc.
Defined.

(** X14. Over a bucket that behaves as a store ([StoreLike]), a
    [copy(src, dest)] that returns leaves two objects with the bytes
    [src] held: [getBuffer] returns them for [src] and for [dest], and
    every key but [dest] is as it was. *)
Theorem copy_duplicates W (d : S3 W) (bucket : string)
    (view : W -> string -> option Buffer) (src dest : string)
    (w w1 : World W) (r : Response) :
  StoreLike d bucket view ->
  copy d bucket src dest w = (Ok r, w1) ->
  exists v,
    view (backend w) src = Some v /\
    (exists r', fst (getBuffer d bucket src w1) = Ok r' /\ content r' = v) /\
    (exists r', fst (getBuffer d bucket dest w1) = Ok r' /\ content r' = v) /\
    (forall k, k <> dest -> view (backend w1) k = view (backend w) k).
Proof.
  intros Hstore Hc.
  destruct (store_copy Hstore _ _ _ Hc) as (v & Hv & Hcv).
  exists v. split; [exact Hv|]. split; [|split].
  - apply (store_reads Hstore). rewrite Hcv. now destruct (src =? dest).
  - apply (store_reads Hstore). now rewrite Hcv, String.eqb_refl.
  - intros k Hk. rewrite Hcv. apply String.eqb_neq in Hk. now rewrite Hk.
Qed.

Lemma copy_duplicates_witness :
  let w1 := snd (copy SdkV3.client "media" "a.txt" "b.txt" (fresh media)) in
  (exists r', fst (getBuffer SdkV3.client "media" "a.txt" w1) = Ok r' /\
              content r' = list_byte_of_string "alpha") /\
  (exists r', fst (getBuffer SdkV3.client "media" "b.txt" w1) = Ok r' /\
              content r' = list_byte_of_string "alpha").
Proof.
  intros w1.
  destruct (@copy_duplicates _ SdkV3.client "media" (memView "media")
              "a.txt" "b.txt" (fresh media) w1 _
              (SdkV3_storeLike "media") eq_refl)
    as (v & Hv & Hsrc & Hdest & _).
  injection Hv as <-. split; assumption.
Defined.

(** X15. [put] returns with the bucket as it was: its write is still on
    its way.  Over a bucket that behaves as a store ([StoreLike]), once
    that write has reached the backend, [getBuffer] of the location
    returns the bytes handed to [put] if the write resolved, which the
    caller can learn from the promise in [raw] only; and if it was
    rejected the bucket is still as it was. *)
Theorem put_then_getBuffer W (d : S3 W) (bucket : string)
    (view : W -> string -> option Buffer) (location : string) (bytes : Buffer)
    (w w1 : World W) (r : Response) :
  StoreLike d bucket view ->
  put d bucket location (ContentBuffer bytes) w = (Ok r, w1) ->
  backend w1 = backend w /\
  (forall out,
     raw r = OfPutPromise (Resolved out) ->
     exists r',
       fst (getBuffer d bucket location
              (landed d bucket location (ContentBuffer bytes) w1)) = Ok r' /\
       content r' = bytes) /\
  (forall e,
     raw r = OfPutPromise (Rejected e) ->
     backend (landed d bucket location (ContentBuffer bytes) w1) = backend w).
Proof.
  intros Hstore. rewrite put_returns. intros [= <- <-]. cbn.
  split; [reflexivity|].
  pose proof Hstore as (_ & _ & _ & _ & Hput).
  specialize (Hput location bytes (backend w)).
  unfold landed. cbn [backend].
  destruct (putObject d
              {| PutObject.Key := location;
                 PutObject.Body := ContentBuffer bytes;
                 PutObject.Bucket := bucket |} (backend w))
    as [[out|e] b]; cbn; split; try discriminate.
  - intros _ _. apply (store_reads Hstore). cbn.
    now rewrite Hput, String.eqb_refl.
  - intros _ _. exact Hput.
Qed.

(** Through the client the driver imports: a write to ["note.txt"],
    read in the world [put] returned and read again once it has
    landed. *)
Lemma put_then_getBuffer_witness :
  let bytes := list_byte_of_string "hello" in
  let w1 := snd (put SdkV3.client "media" "note.txt" (ContentBuffer bytes)
                     (fresh media)) in
  backend w1 = media /\
  exists r',
    fst (getBuffer SdkV3.client "media" "note.txt"
           (landed SdkV3.client "media" "note.txt" (ContentBuffer bytes) w1))
    = Ok r' /\
    content r' = bytes.
Proof.
  intros bytes w1.
  destruct (@put_then_getBuffer _ SdkV3.client "media" (memView "media")
              "note.txt" bytes (fresh media) w1 _
              (SdkV3_storeLike "media") eq_refl)
    as (Hb & Hr & _).
  split; [exact Hb|]. exact (Hr _ eq_refl).
Defined.

(** X16. Over a bucket that behaves as a store ([StoreLike]), after a
    [delete] that returns, [getBuffer] of that key raises an exception
    of the abstraction, [exists] of it does not answer [true], and
    every other key is as it was. *)
Theorem delete_then_absent W (d : S3 W) (bucket : string)
    (view : W -> string -> option Buffer) (location : string)
    (w w1 : World W) (r : DeleteResponse) :
  StoreLike d bucket view ->
  delete d bucket location w = (Ok r, w1) ->
  (exists x, fst (getBuffer d bucket location w1) = Err (Translated x)) /\
  (forall r', fst (exists_at d bucket location w1) = Ok r' ->
              exists_ r' = false) /\
  (forall k, k <> location -> view (backend w1) k = view (backend w) k).
Proof.
  intros Hstore Hd. pose proof (store_delete Hstore _ _ Hd) as Hdv.
  assert (Hgone : view (backend w1) location = None)
    by now rewrite Hdv, String.eqb_refl.
  split; [|split].
  - exact (store_misses Hstore _ _ Hgone).
  - exact (store_not_there Hstore _ _ Hgone).
  - intros k Hk. rewrite Hdv. apply String.eqb_neq in Hk. now rewrite Hk.
Qed.

Lemma delete_then_absent_witness :
  let w1 := snd (delete SdkV3.client "media" "a.txt" (fresh media)) in
  (exists x, fst (getBuffer SdkV3.client "media" "a.txt" w1)
             = Err (Translated x)) /\
  memView "media" (backend w1) "logo.png" = Some (list_byte_of_string "PNG").
Proof.
  intros w1.
  destruct (@delete_then_absent _ SdkV3.client "media" (memView "media")
              "a.txt" (fresh media) w1 _ (SdkV3_storeLike "media") eq_refl)
    as (Hx & _ & Hk).
  split; [exact Hx|]. rewrite Hk; [reflexivity|discriminate].
Defined.

(** X17. Over a bucket that behaves as a store ([StoreLike]), the
    reading methods change nothing: after [exists], [getStat],
    [getBuffer], [get] or [getStream] the backend is as it was, whether
    the method returned or raised. *)
Theorem reads_change_nothing W (d : S3 W) (bucket : string)
    (view : W -> string -> option Buffer)
    (toString : Buffer -> BufferEncoding -> string)
    (location : string) (w : World W) :
  StoreLike d bucket view ->
  backend (snd (exists_at d bucket location w)) = backend w /\
  backend (snd (getStat d bucket location w)) = backend w /\
  backend (snd (getBuffer d bucket location w)) = backend w /\
  (forall encoding,
     backend (snd (get d bucket toString location encoding w)) = backend w) /\
  backend (snd (getStream d bucket location w)) = backend w.
Proof.
  intros Hstore. pose proof Hstore as (Hhead & Hget & _).
  specialize (Hhead location (backend w)).
  specialize (Hget location (backend w)).
  assert (Hh : snd (headObject d {| Key := location; Bucket := bucket |}
                               (backend w)) = backend w).
  { destruct (headObject d {| Key := location; Bucket := bucket |} (backend w))
      as [[?|?] b]; cbn; tauto. }
  assert (Hb : backend (snd (getBuffer d bucket location w)) = backend w).
  { pose proof (store_getBuffer Hstore location w) as Hg.
    destruct (view (backend w) location).
    - destruct Hg as (r & -> & _). reflexivity.
    - destruct Hg as (t & ->). reflexivity. }
  split; [|split; [|split; [|split]]].
  - rewrite exists_at_world. exact Hh.
  - rewrite getStat_run. exact Hh.
  - exact Hb.
  - intros encoding. rewrite get_run.
    destruct (getBuffer d bucket location w) as [[r|t] w1]; [|exact Hb].
    destruct encoding as [[]|]; exact Hb.
  - destruct (getObject d {| Key := location; Bucket := bucket |} (backend w))
      as [[result|e] b] eqn:H.
    + rewrite (getStream_resolved _ _ _ _ H). cbn. tauto.
    + rewrite (getStream_rejected _ _ _ _ H). cbn. tauto.
Qed.

Lemma reads_change_nothing_witness :
  backend (snd (exists_at SdkV3.client "media" "a.txt" (fresh media))) = media /\
  backend (snd (getStream SdkV3.client "media" "gone.txt" (fresh media)))
  = media.
Proof.
  destruct (@reads_change_nothing _ SdkV3.client "media" (memView "media")
              MemS3.toString "a.txt" (fresh media) (SdkV3_storeLike "media"))
    as (H1 & _).
  destruct (@reads_change_nothing _ SdkV3.client "media" (memView "media")
              MemS3.toString "gone.txt" (fresh media) (SdkV3_storeLike "media"))
    as (_ & _ & _ & _ & H2).
  split; assumption.
Defined.
